(** * cherrypick-and-create-pr: a shallow embedding of [src/index.ts]

    The action replays an ordered list of commits onto a fresh branch
    ([cherryPickCommits]), and when every commit landed it pushes the
    branch and opens a pull request ([createPullRequest]).  This file
    embeds the TypeScript functions as Rocq functions in a small
    state/trace/exception monad over an abstract host (git subprocesses,
    the Actions toolkit, the GitHub API), and proves the properties the
    specification states about them.

    Strings are [string]; a character stands for one UTF-16 code unit in
    the range 0..255. *)

From Stdlib Require Import String Ascii List ZArith Lia Bool DecimalString.
From Stdlib Require DecimalZ DecimalPos.
Import ListNotations.
Open Scope list_scope.
Open Scope string_scope.

Set Implicit Arguments.

(* ================================================================= *)
(** ** JavaScript string primitives used by the action *)

Module Js.

(** [String.prototype.includes]. *)
Fixpoint includes (s sub : string) : bool :=
  prefix sub s ||
  match s with
  | EmptyString => false
  | String _ s' => includes s' sub
  end.

(** White space and line terminators recognised by
    [String.prototype.trim], restricted to code units below 256. *)
Definition isWhiteSpace (c : ascii) : bool :=
  let n := nat_of_ascii c in
  (Nat.leb 9 n && Nat.leb n 13) || Nat.eqb n 32 || Nat.eqb n 160.

Fixpoint trimStart (s : string) : string :=
  match s with
  | EmptyString => EmptyString
  | String c s' => if isWhiteSpace c then trimStart s' else s
  end.

Fixpoint trimEnd (s : string) : string :=
  match s with
  | EmptyString => EmptyString
  | String c s' =>
      match trimEnd s' with
      | EmptyString => if isWhiteSpace c then EmptyString else String c EmptyString
      | t => String c t
      end
  end.

(** [String.prototype.trim]. *)
Definition trim (s : string) : string := trimEnd (trimStart s).

(** [String.prototype.split] with a one-character separator: the result
    always has at least one entry. *)
Fixpoint split (sep : ascii) (s : string) : list string :=
  match s with
  | EmptyString => [EmptyString]
  | String c s' =>
      if Ascii.eqb c sep then EmptyString :: split sep s'
      else match split sep s' with
           | [] => [String c EmptyString]
           | h :: t => String c h :: t
           end
  end.

(** [s.replace(/c/g, d)] for a one-character pattern. *)
Fixpoint replaceAll (c d : ascii) (s : string) : string :=
  match s with
  | EmptyString => EmptyString
  | String x s' => String (if Ascii.eqb x c then d else x) (replaceAll c d s')
  end.

(** [s.substring(0, n)]. *)
Definition substring0 (n : nat) (s : string) : string := substring 0 n s.

(** [Array.prototype.join]. *)
Fixpoint join (sep : string) (l : list string) : string :=
  match l with
  | [] => EmptyString
  | [x] => x
  | x :: rest => x ++ sep ++ join sep rest
  end.

(** [String.prototype.repeat]. *)
Fixpoint repeat (s : string) (n : nat) : string :=
  match n with
  | O => EmptyString
  | S n' => s ++ repeat s n'
  end.

(** A string is falsy exactly when it is empty. *)
Definition truthy (s : string) : bool := negb (s =? EmptyString).

(** [a || b] on strings. *)
Definition or (a b : string) : string := if truthy a then a else b.

(** Template-literal rendering of an integral number. *)
Definition ofZ (z : Z) : string := NilZero.string_of_int (Z.to_int z).
Definition ofNat (n : nat) : string := NilZero.string_of_uint (Nat.to_uint n).

End Js.

(* ================================================================= *)
(** ** Data model *)

(** [interface ExecOutput]. *)
Record ExecOutput := {
  stdout : string;
  stderr : string;
  exitCode : Z
}.

(** [interface Inputs]. *)
Record Inputs := {
  commits : list string;
  targetBranch : string;
  newBranch : string;
  prTitle : string;
  prBody : string;
  ghToken : string;
  repository : string;
  authorName : string;
  authorEmail : string;
  draft : bool;
  labels : list string
}.

(** The string-literal union ['success' | 'conflict' | 'failed']. *)
Inductive Status := Success | Conflict | Failed.

Definition statusText (s : Status) : string :=
  match s with
  | Success => "success"
  | Conflict => "conflict"
  | Failed => "failed"
  end.

(** [interface CherryPickResult]; the optional fields are [option]s. *)
Record CherryPickResult := {
  status : Status;
  successfulCommits : list string;
  failedCommit : option string;
  error : option string
}.

(** What a spawned process delivers to the listeners of [exec.exec]: the
    chunks written to each stream, and the exit code it resolves with. *)
Record ProcessRun := {
  stdoutChunks : list string;
  stderrChunks : list string;
  code : Z
}.

(** Argument of [octokit.rest.pulls.create]. *)
Record PullsCreateParams := {
  pc_owner : option string;
  pc_repo : option string;
  pc_title : string;
  pc_body : string;
  pc_head : string;
  pc_base : string;
  pc_draft : bool
}.

(** The fields of the response that the action reads. *)
Record PullsCreateResponse := {
  html_url : string;
  number : Z
}.

(** Argument of [octokit.rest.issues.addLabels]. *)
Record AddLabelsParams := {
  al_owner : option string;
  al_repo : option string;
  al_issue_number : Z;
  al_labels : list string
}.

(** A thrown value: an [Error] carrying a message, or anything else. *)
Inductive JsError :=
| ErrorObj (message : string)
| NonError.

Inductive Result (A : Type) :=
| Ok (a : A)
| Thrown (e : JsError).
Arguments Ok {A} a.
Arguments Thrown {A} e.

(** Everything the action does to the outside, in program order. *)
Inductive Event :=
| EExec (command : string) (args : list string)
| EInfo (message : string)
| EWarning (message : string)
| ESetOutput (name value : string)
| ESetFailed (message : string)
| ESetSecret (secret : string)
| EConsoleLog (line : string)
| EPullsCreate (p : PullsCreateParams)
| EAddLabels (p : AddLabelsParams).

(** The collaborators of the action, over an abstract world state:
    [@actions/exec], the clock, [@actions/core] inputs, the process
    environment and the octokit REST client.  [exec_exec command args
    silent ignoreReturnCode] spawns a process and resolves with its exit
    code (every call of the action asks for the return code to be
    ignored, so a non-zero code is a value, not an exception);
    [core_getInput name required] reads an input of the workflow step and
    may throw; the octokit calls may throw as well. *)
Class Host (World : Type) := {
  exec_exec : string -> list string -> bool -> bool -> World -> ProcessRun * World;
  Date_now : World -> Z;
  core_getInput : string -> bool -> World -> Result string;
  env_GITHUB_REPOSITORY : World -> option string;
  github_getOctokit : string -> World -> Result unit;
  pulls_create : PullsCreateParams -> World -> Result PullsCreateResponse * World;
  issues_addLabels : AddLabelsParams -> World -> Result unit * World
}.

(* ================================================================= *)
(** ** The monad of the action: world state, event trace, exceptions *)

Record Outcome (World A : Type) := {
  res : Result A;
  events : list Event;
  final : World
}.
Arguments res {World A} o.
Arguments events {World A} o.
Arguments final {World A} o.

Definition M (World A : Type) : Type := World -> Outcome World A.

Definition ret {World A} (a : A) : M World A :=
  fun w => {| res := Ok a; events := []; final := w |}.

Definition bind {World A B} (m : M World A) (f : A -> M World B) : M World B :=
  fun w =>
    let o := m w in
    match res o with
    | Ok a =>
        let o' := f a (final o) in
        {| res := res o'; events := (events o ++ events o')%list; final := final o' |}
    | Thrown e => {| res := Thrown e; events := events o; final := final o |}
    end.

Definition throw {World A} (e : JsError) : M World A :=
  fun w => {| res := Thrown e; events := []; final := w |}.

(** [try { m } catch (error) { h error }]. *)
Definition tryCatch {World A} (m : M World A) (h : JsError -> M World A) : M World A :=
  fun w =>
    let o := m w in
    match res o with
    | Ok a => o
    | Thrown e =>
        let o' := h e (final o) in
        {| res := res o'; events := (events o ++ events o')%list; final := final o' |}
    end.

Definition emit {World} (e : Event) : M World unit :=
  fun w => {| res := Ok tt; events := [e]; final := w |}.

(** A value computed from the world without changing it. *)
Definition observe {World A} (f : World -> A) : M World A :=
  fun w => {| res := Ok (f w); events := []; final := w |}.

(** A value that may be an exception. *)
Definition lift {World A} (f : World -> Result A) : M World A :=
  fun w => {| res := f w; events := []; final := w |}.

(** A call to an outside service that changes the world and may throw. *)
Definition request {World A} (f : World -> Result A * World) : M World A :=
  fun w =>
    let '(r, w') := f w in
    {| res := r; events := []; final := w' |}.

Declare Scope action_scope.
Delimit Scope action_scope with action.
Notation "x <- m ;; k" := (bind m (fun x => k))
  (at level 61, m at next level, right associativity) : action_scope.
Notation "m ;;; k" := (bind m (fun _ => k))
  (at level 61, right associativity) : action_scope.
Open Scope action_scope.

(* ================================================================= *)
(** ** The action *)

Definition VERSION : string := "1.0.0".
Definition ACTION_NAME : string := "cherrypick-and-create-pr".

Definition nl : string := String (ascii_of_nat 10) EmptyString.
Definition backtick : string := String (ascii_of_nat 96) EmptyString.

(** The [options] argument of [execCommand]; an absent field is [None]. *)
Record ExecOptions := {
  silent : option bool;
  ignoreReturnCode : option bool;
  maxBuffer : option N
}.

Definition noOptions : ExecOptions :=
  {| silent := None; ignoreReturnCode := None; maxBuffer := None |}.

(** [a ?? b]. *)
Definition nullish {A} (a : option A) (b : A) : A :=
  match a with
  | Some x => x
  | None => b
  end.

(** One call of a stream listener of [execCommand]: the accumulated text
    and the truncation flag, updated with a chunk. *)
Definition listener (maxBuffer : N) (acc : string * bool) (data : string) : string * bool :=
  let '(out, truncated) := acc in
  if truncated then acc
  else
    let out' := out ++ data in
    if (maxBuffer <? N.of_nat (String.length out'))%N
    then (substring 0 (N.to_nat maxBuffer) out' ++ nl ++ "... [output truncated]", true)
    else (out', false).

Definition capture (maxBuffer : N) (chunks : list string) : string :=
  fst (fold_left (listener maxBuffer) chunks (EmptyString, false)).

Section Action.

Context {World : Type} {host : Host World}.

Local Abbreviation Act := (M World).

(** *** The Actions toolkit and the console *)

Definition core_info (message : string) : Act unit := emit (EInfo message).
Definition core_warning (message : string) : Act unit := emit (EWarning message).
Definition core_setOutput (name value : string) : Act unit := emit (ESetOutput name value).
Definition core_setFailed (message : string) : Act unit := emit (ESetFailed message).
Definition core_setSecret (secret : string) : Act unit := emit (ESetSecret secret).
Definition console_log (line : string) : Act unit := emit (EConsoleLog line).

(** *** [execCommand] *)

(** The effect of [execCommand] on the world, and the [ExecOutput] it
    resolves with. *)
Definition execute (command : string) (args : list string) (options : ExecOptions)
    (w : World) : ExecOutput * World :=
  let maxBuffer := nullish (maxBuffer options) (10 * 1024 * 1024)%N in
  let '(p, w') :=
    exec_exec command args (nullish (silent options) false)
      (nullish (ignoreReturnCode options) true) w in
  ({| stdout := Js.trim (capture maxBuffer (stdoutChunks p));
      stderr := Js.trim (capture maxBuffer (stderrChunks p));
      exitCode := code p |}, w').

Definition execCommand (command : string) (args : list string) (options : ExecOptions)
    : Act ExecOutput :=
  fun w =>
    let '(r, w') := execute command args options w in
    {| res := Ok r; events := [EExec command args]; final := w' |}.

(** *** Git steps *)

Definition configureGit (authorName authorEmail : string) : Act unit :=
  core_info "Configuring git..." ;;;
  _ <- execCommand "git" ["config"; "user.name"; authorName] noOptions ;;
  _ <- execCommand "git" ["config"; "user.email"; authorEmail] noOptions ;;
  ret tt.

Definition fetchBranch (branch : string) : Act unit :=
  core_info ("Fetching branch: " ++ branch) ;;;
  result <- execCommand "git" ["fetch"; "origin"; branch] noOptions ;;
  if negb (exitCode result =? 0)%Z
  then throw (ErrorObj ("Failed to fetch branch " ++ branch ++ ": " ++ stderr result))
  else ret tt.

Definition createBranch (branchName baseBranch : string) : Act unit :=
  core_info ("Creating branch " ++ branchName ++ " from origin/" ++ baseBranch) ;;;
  result <- execCommand "git" ["checkout"; "origin/" ++ baseBranch] noOptions ;;
  if negb (exitCode result =? 0)%Z
  then throw (ErrorObj ("Failed to checkout origin/" ++ baseBranch ++ ": " ++ stderr result))
  else
    result <- execCommand "git" ["checkout"; "-b"; branchName] noOptions ;;
    if negb (exitCode result =? 0)%Z
    then throw (ErrorObj ("Failed to create branch " ++ branchName ++ ": " ++ stderr result))
    else ret tt.

(** *** The replay engine *)

Definition applyArgs (commit : string) : list string :=
  ["cherry-pick"; commit; "--no-commit"].
Definition statusArgs : list string := ["status"; "--porcelain"].
Definition abortArgs : list string := ["cherry-pick"; "--abort"].
Definition finalizeArgs (commit : string) : list string :=
  ["commit"; "-m"; "Cherry-pick: " ++ commit].

Definition ignoringReturnCode : ExecOptions :=
  {| silent := None; ignoreReturnCode := Some true; maxBuffer := None |}.

(** The conflict test applied to the text of [git status --porcelain]. *)
Definition hasConflict (statusStdout : string) : bool :=
  Js.includes statusStdout "UU" ||
  Js.includes statusStdout "AA" ||
  Js.includes statusStdout "DD".

(** The [for (const commit of commits)] loop of [cherryPickCommits]:
    [remaining] is what is left to iterate over and [successfulCommits]
    the array built so far. *)
Fixpoint cherryPickLoop (remaining successfulCommits : list string)
    : Act CherryPickResult :=
  match remaining with
  | [] =>
      ret {| status := Success; successfulCommits := successfulCommits;
             failedCommit := None; error := None |}
  | commit :: rest =>
      core_info ("Cherry-picking commit: " ++ commit) ;;;
      result <- execCommand "git" (applyArgs commit) ignoringReturnCode ;;
      if negb (exitCode result =? 0)%Z then
        statusResult <- execCommand "git" statusArgs noOptions ;;
        if hasConflict (stdout statusResult) then
          core_warning ("Conflict detected while cherry-picking " ++ commit) ;;;
          _ <- execCommand "git" abortArgs ignoringReturnCode ;;
          ret {| status := Conflict; successfulCommits := successfulCommits;
                 failedCommit := Some commit;
                 error := Some ("Merge conflict while cherry-picking commit " ++ commit) |}
        else
          ret {| status := Failed; successfulCommits := successfulCommits;
                 failedCommit := Some commit;
                 error := Some (Js.or (stderr result) (stdout result)) |}
      else
        commitResult <- execCommand "git" (finalizeArgs commit) noOptions ;;
        if negb (exitCode commitResult =? 0)%Z &&
           negb (Js.includes (stdout commitResult) "nothing to commit")
        then
          ret {| status := Failed; successfulCommits := successfulCommits;
                 failedCommit := Some commit;
                 error := Some ("Failed to commit cherry-pick: " ++ stderr commitResult) |}
        else
          core_info ("Successfully cherry-picked: " ++ commit) ;;;
          cherryPickLoop rest (successfulCommits ++ [commit])%list
  end.

Definition cherryPickCommits (commits : list string) : Act CherryPickResult :=
  cherryPickLoop commits [].

Definition pushBranch (branchName : string) : Act unit :=
  core_info ("Pushing branch: " ++ branchName) ;;;
  result <- execCommand "git" ["push"; "origin"; branchName] noOptions ;;
  if negb (exitCode result =? 0)%Z
  then throw (ErrorObj ("Failed to push branch: " ++ stderr result))
  else ret tt.

Definition silently : ExecOptions :=
  {| silent := Some true; ignoreReturnCode := None; maxBuffer := None |}.

Definition getCommitMessage (commit : string) : Act string :=
  result <- execCommand "git" ["log"; "-1"; "--format=%s"; commit] silently ;;
  ret (stdout result).

(** *** Console reports

    The two heart emoji of the banner are carried as their UTF-8 bytes. *)

Definition printHeader (inputs : Inputs) : Act unit :=
  let line := Js.repeat "-" 90 in
  console_log line ;;;
  console_log ("flxbl-actions  -- ❤️  by flxbl.io ❤️  -Version:" ++ VERSION) ;;;
  console_log line ;;;
  console_log ("Action        : " ++ ACTION_NAME) ;;;
  console_log ("Repository    : " ++ repository inputs) ;;;
  console_log ("Target Branch : " ++ targetBranch inputs) ;;;
  console_log ("Commits       : " ++ Js.join ", " (commits inputs)) ;;;
  console_log ("New Branch    : " ++ Js.or (newBranch inputs) "(auto-generated)") ;;;
  console_log line ;;;
  console_log "".

(** [if (x) { body }] for an optional string [x]; inside, [x] is a string. *)
Definition whenTruthy (x : option string) (body : string -> Act unit) : Act unit :=
  match x with
  | Some s => if Js.truthy s then body s else ret tt
  | None => ret tt
  end.

(** An optional value inside a template literal. *)
Definition interpolate (x : option string) : string :=
  match x with
  | Some s => s
  | None => "undefined"
  end.

Definition printSummary (inputs : Inputs) (branchName : string)
    (cherryPickResult : CherryPickResult) (prUrl : option string) (prNumber : option Z)
    : Act unit :=
  console_log "" ;;;
  let line := Js.repeat "-" 90 in
  console_log line ;;;
  console_log "Cherry-pick Summary" ;;;
  console_log line ;;;
  console_log ("Target Branch    : " ++ targetBranch inputs) ;;;
  console_log ("New Branch       : " ++ branchName) ;;;
  console_log ("Commits Requested: " ++ Js.ofNat (List.length (commits inputs))) ;;;
  console_log ("Commits Applied  : " ++
               Js.ofNat (List.length (successfulCommits cherryPickResult))) ;;;
  console_log ("Status           : " ++ statusText (status cherryPickResult)) ;;;
  whenTruthy (failedCommit cherryPickResult)
    (fun failed => console_log ("Failed Commit    : " ++ failed)) ;;;
  whenTruthy prUrl
    (fun url =>
       console_log ("PR URL           : " ++ url) ;;;
       console_log ("PR Number        : #" ++ interpolate (option_map Js.ofZ prNumber))) ;;;
  console_log line.

(** *** The review request *)

(** One line of the generated body. *)
Definition bodyLine (commit msg : string) : string :=
  "- " ++ backtick ++ Js.substring0 7 commit ++ backtick ++ " " ++ msg ++ nl.

(** The [for (const commit of cherryPickResult.successfulCommits)] loop
    that extends [body]. *)
Fixpoint bodyLoop (applied : list string) (body : string) : Act string :=
  match applied with
  | [] => ret body
  | commit :: rest =>
      msg <- getCommitMessage commit ;;
      bodyLoop rest (body ++ bodyLine commit msg)
  end.

Definition bodyFooter : string :=
  nl ++ "---" ++ nl ++
  "Generated by [flxbl-actions/cherrypick-and-create-pr](https://github.com/flxbl-io/cherrypick-and-create-pr)".

(** Lines 198-207 of [createPullRequest]: the title. *)
Definition composeTitle (inputs : Inputs) : Act string :=
  let title := prTitle inputs in
  if negb (Js.truthy title) then
    match commits inputs with
    | [c0] =>
        title <- getCommitMessage c0 ;;
        ret ("Cherry-pick: " ++ title)
    | _ =>
        ret ("Cherry-pick " ++ Js.ofNat (List.length (commits inputs)) ++
             " commits to " ++ targetBranch inputs)
    end
  else ret title.

Definition bodyHeader (inputs : Inputs) : string :=
  ("## Cherry-pick PR" ++ nl ++ nl) ++
  ("**Target branch:** " ++ backtick ++ targetBranch inputs ++ backtick ++ nl ++ nl) ++
  ("### Commits cherry-picked:" ++ nl).

(** Lines 209-221 of [createPullRequest]: the body. *)
Definition composeBody (inputs : Inputs) (cherryPickResult : CherryPickResult)
    : Act string :=
  let body := prBody inputs in
  if negb (Js.truthy body) then
    body <- bodyLoop (successfulCommits cherryPickResult) (bodyHeader inputs) ;;
    ret (body ++ bodyFooter)
  else ret body.

Definition createPullRequest (inputs : Inputs) (branchName : string)
    (cherryPickResult : CherryPickResult) : Act PullsCreateResponse :=
  lift (github_getOctokit (ghToken inputs)) ;;;
  let parts := Js.split "/" (repository inputs) in
  let owner := nth_error parts 0 in
  let repo := nth_error parts 1 in
  title <- composeTitle inputs ;;
  body <- composeBody inputs cherryPickResult ;;
  core_info "Creating pull request..." ;;;
  let params :=
    {| pc_owner := owner; pc_repo := repo; pc_title := title; pc_body := body;
       pc_head := branchName; pc_base := targetBranch inputs;
       pc_draft := draft inputs |} in
  emit (EPullsCreate params) ;;;
  response <- request (pulls_create params) ;;
  core_info ("Pull request created: " ++ html_url response) ;;;
  (if Nat.ltb 0 (List.length (labels inputs)) then
     core_info ("Adding labels: " ++ Js.join ", " (labels inputs)) ;;;
     let lparams :=
       {| al_owner := owner; al_repo := repo;
          al_issue_number := number response; al_labels := labels inputs |} in
     emit (EAddLabels lparams) ;;;
     request (issues_addLabels lparams)
   else ret tt) ;;;
  ret {| html_url := html_url response; number := number response |}.

(** *** The branch name *)

Definition generateBranchName (targetBranch : string) (commits : list string)
    : Act string :=
  timestamp <- observe Date_now ;;
  match commits with
  | c0 :: _ =>
      let shortSha := Js.substring0 7 c0 in
      let sanitizedTarget := Js.replaceAll "/" "-" targetBranch in
      ret ("cherrypick/" ++ sanitizedTarget ++ "/" ++ shortSha ++ "-" ++ Js.ofZ timestamp)
  | [] => throw (ErrorObj "Cannot read properties of undefined (reading 'substring')")
  end.

(** Line 317 of [run]: [inputs.newBranch || generateBranchName(...)]. *)
Definition chooseBranchName (inputs : Inputs) : Act string :=
  if Js.truthy (newBranch inputs) then ret (newBranch inputs)
  else generateBranchName (targetBranch inputs) (commits inputs).

(** *** [run] *)

Definition input (name : string) (required : bool) : Act string :=
  lift (core_getInput name required).

(** Line 290: the [commits] input split at commas, each entry trimmed. *)
Definition parseCommits (raw : string) : list string :=
  map Js.trim (Js.split "," raw).

(** Lines 289-301: the [inputs] object literal, field by field. *)
Definition readInputs : Act Inputs :=
  commitsRaw <- input "commits" true ;;
  targetBranch <- input "target-branch" true ;;
  newBranch <- input "new-branch" false ;;
  prTitle <- input "pr-title" false ;;
  prBody <- input "pr-body" false ;;
  ghToken <- input "gh-token" true ;;
  repositoryInput <- input "repository" false ;;
  repositoryEnv <- observe env_GITHUB_REPOSITORY ;;
  authorName <- input "author-name" false ;;
  authorEmail <- input "author-email" false ;;
  draft <- input "draft" false ;;
  labelsRaw <- input "labels" false ;;
  labels <- (if Js.truthy labelsRaw
             then labelsAgain <- input "labels" false ;;
                  ret (map Js.trim (Js.split "," labelsAgain))
             else ret []) ;;
  ret {| commits := parseCommits commitsRaw;
         targetBranch := targetBranch;
         newBranch := Js.or newBranch "";
         prTitle := Js.or prTitle "";
         prBody := Js.or prBody "";
         ghToken := ghToken;
         repository :=
           Js.or (Js.or repositoryInput (nullish repositoryEnv "")) "";
         authorName := Js.or authorName "github-actions[bot]";
         authorEmail := Js.or authorEmail "github-actions[bot]@users.noreply.github.com";
         draft := draft =? "true";
         labels := labels |}.

(** The condition of line 307. *)
Definition noCommitsSpecified (commits : list string) : bool :=
  Nat.eqb (List.length commits) 0 ||
  (Nat.eqb (List.length commits) 1 &&
   match nth_error commits 0 with
   | Some c => c =? ""
   | None => false
   end).

(** Lines 289-327 of [run]: everything before the replay.  It yields the
    inputs and the branch the replay works on. *)
Definition setup : Act (Inputs * string) :=
  inputs <- readInputs ;;
  if negb (Js.truthy (repository inputs))
  then throw (ErrorObj "Repository not specified and GITHUB_REPOSITORY not set")
  else
    if noCommitsSpecified (commits inputs)
    then throw (ErrorObj "No commits specified")
    else
      core_setSecret (ghToken inputs) ;;;
      printHeader inputs ;;;
      branchName <- chooseBranchName inputs ;;
      core_info ("Using branch name: " ++ branchName) ;;;
      configureGit (authorName inputs) (authorEmail inputs) ;;;
      fetchBranch (targetBranch inputs) ;;;
      createBranch branchName (targetBranch inputs) ;;;
      ret (inputs, branchName).

(** Lines 334-356 of [run]: what follows the replay and its two outputs. *)
Definition conclude (inputs : Inputs) (branchName : string)
    (cherryPickResult : CherryPickResult) : Act unit :=
  match status cherryPickResult with
  | Failed =>
      printSummary inputs branchName cherryPickResult None None ;;;
      throw (ErrorObj ("Cherry-pick failed: " ++ interpolate (error cherryPickResult)))
  | Conflict =>
      printSummary inputs branchName cherryPickResult None None ;;;
      core_warning "Cherry-pick had conflicts. Manual intervention required." ;;;
      core_setFailed ("Merge conflict while cherry-picking commit " ++
                      interpolate (failedCommit cherryPickResult))
  | Success =>
      pushBranch branchName ;;;
      pr <- createPullRequest inputs branchName cherryPickResult ;;
      core_setOutput "pr-url" (html_url pr) ;;;
      core_setOutput "pr-number" (Js.ofZ (number pr)) ;;;
      printSummary inputs branchName cherryPickResult (Some (html_url pr)) (Some (number pr)) ;;;
      core_info "Cherry-pick and PR creation completed successfully!"
  end.

(** The [try] block of [run]. *)
Definition runBody : Act unit :=
  prepared <- setup ;;
  let '(inputs, branchName) := prepared in
  cherryPickResult <- cherryPickCommits (commits inputs) ;;
  core_setOutput "cherry-pick-status" (statusText (status cherryPickResult)) ;;;
  core_setOutput "branch-name" branchName ;;;
  conclude inputs branchName cherryPickResult.

(** The [catch] clause of [run]. *)
Definition handler (error : JsError) : Act unit :=
  match error with
  | ErrorObj message => core_setFailed message
  | NonError => core_setFailed "Unknown error occurred"
  end.

Definition run : Act unit := tryCatch runBody handler.

End Action.

(* ================================================================= *)
(** ** A scripted host

    A concrete [Host] whose answers are read from a fixed script: git
    answers by argument list, step inputs by name.  It is used to run the
    action on concrete scenarios. *)

Module Scripted.

Record Script := {
  inputOf : string -> string;
  git : list string -> ProcessRun;
  now : Z;
  envRepository : option string;
  created : PullsCreateResponse
}.

Fixpoint sameArgs (a b : list string) : bool :=
  match a, b with
  | [], [] => true
  | x :: a', y :: b' => (x =? y) && sameArgs a' b'
  | _, _ => false
  end.

Definition exits (n : Z) (out err : string) : ProcessRun :=
  {| stdoutChunks := [out]; stderrChunks := [err]; code := n |}.

(** [core.getInput]: a required input that is not supplied throws,
    otherwise the value is trimmed. *)
Definition getInput (name : string) (required : bool) (w : Script) : Result string :=
  let val := inputOf w name in
  if required && negb (Js.truthy val)
  then Thrown (ErrorObj ("Input required and not supplied: " ++ name))
  else Ok (Js.trim val).

#[export] Instance scriptedHost : Host Script := {|
  exec_exec := fun _ args _ _ w => (git w args, w);
  Date_now := now;
  core_getInput := getInput;
  env_GITHUB_REPOSITORY := envRepository;
  github_getOctokit := fun _ _ => Ok tt;
  pulls_create := fun _ w => (Ok (created w), w);
  issues_addLabels := fun _ w => (Ok tt, w)
|}.

(** Step inputs given as a table. *)
Fixpoint lookup (table : list (string * string)) (name : string) : string :=
  match table with
  | [] => ""
  | (k, v) :: rest => if k =? name then v else lookup rest name
  end.

Definition response : PullsCreateResponse :=
  {| html_url := "https://github.com/acme/widgets/pull/42"; number := 42 |}.

(** A script for the repository [acme/widgets] and the target branch
    [release/1.0], with the given [commits] input and git answers. *)
Definition script (commitsInput : string) (answers : list string -> ProcessRun) : Script :=
  {| inputOf := lookup [("commits", commitsInput); ("target-branch", "release/1.0");
                        ("gh-token", "t0ken"); ("repository", "acme/widgets")];
     git := answers;
     now := 1700000000000;
     envRepository := None;
     created := response |}.

(** Scenario: two commits, the second one conflicts on [file.txt]. *)
Definition conflictOnSecond : Script :=
  script "abc1234, def5678"
    (fun args =>
       if sameArgs args (applyArgs "def5678") then exits 1 "" "error: could not apply def5678"
       else if sameArgs args statusArgs then exits 0 "UU file.txt" ""
       else exits 0 "" "").

(** Scenario: every git command succeeds. *)
Definition allClean (commitsInput : string) : Script :=
  script commitsInput (fun _ => exits 0 "" "").

(** Scenario: the first of two commits is already on the branch, so
    [git commit] has nothing to commit. *)
Definition alreadyApplied : Script :=
  script "abc1234,def5678"
    (fun args =>
       if sameArgs args (finalizeArgs "abc1234")
       then exits 1 "On branch release/1.0: nothing to commit, working tree clean" ""
       else exits 0 "" "").

(** Scenario: [git commit] fails for the first commit for another reason. *)
Definition commitBroken : Script :=
  script "abc1234,def5678"
    (fun args =>
       if sameArgs args (finalizeArgs "abc1234")
       then exits 128 "" "fatal: unable to write new index file"
       else exits 0 "" "").

(** Scenario: the apply step fails and the status text has "UU" only
    inside a file path. *)
Definition markerInPath : Script :=
  script "abc1234"
    (fun args =>
       if sameArgs args (applyArgs "abc1234") then exits 1 "" "error: bad revision"
       else if sameArgs args statusArgs then exits 0 "M  docs/UUID.md" ""
       else exits 0 "" "").

(** Scenario: every git command succeeds and [git log] knows the subject
    of each commit. *)
Definition withSubjects : Script :=
  script "abc1234"
    (fun args =>
       if sameArgs args ["log"; "-1"; "--format=%s"; "abc1234"]
       then exits 0 "Fix the widget" ""
       else if sameArgs args ["log"; "-1"; "--format=%s"; "def5678"]
       then exits 0 "Tighten the bolts" ""
       else exits 0 "" "").

(** The inputs object for the given commits, everything optional left out. *)
Definition inputsFor (commitList : list string) : Inputs :=
  {| commits := commitList; targetBranch := "release/1.0"; newBranch := "";
     prTitle := ""; prBody := ""; ghToken := "t0ken"; repository := "acme/widgets";
     authorName := "github-actions[bot]";
     authorEmail := "github-actions[bot]@users.noreply.github.com";
     draft := false; labels := [] |}.

(** Scenario: the target branch cannot be fetched. *)
Definition fetchFails : Script :=
  script "abc1234"
    (fun args =>
       if sameArgs args ["fetch"; "origin"; "release/1.0"]
       then exits 128 "" "fatal: no such remote ref release/1.0"
       else exits 0 "" "").

(** Scenario: the replay goes through and the push is refused. *)
Definition pushFails : Script :=
  script "abc1234"
    (fun args =>
       match args with
       | "push" :: _ => exits 1 "" "remote: Permission denied"
       | _ => exits 0 "" ""
       end).

(** The same script one millisecond later. *)
Definition later (s : Script) : Script :=
  {| inputOf := inputOf s; git := git s; now := now s + 1;
     envRepository := envRepository s; created := created s |}.

(** Inputs with a title, a body and two labels. *)
Definition labelledInputs : Inputs :=
  {| commits := ["abc1234"]; targetBranch := "release/1.0"; newBranch := "";
     prTitle := "Backport the widget fix"; prBody := "See the original change.";
     ghToken := "t0ken"; repository := "acme/widgets";
     authorName := "github-actions[bot]";
     authorEmail := "github-actions[bot]@users.noreply.github.com";
     draft := false; labels := ["backport"; "urgent"] |}.

(** Scenario: no [repository] input, the repository comes from the
    environment; a draft with two labels and an author name of its own. *)
Definition fromEnvironment : Script :=
  {| inputOf := lookup [("commits", "abc1234"); ("target-branch", "release/1.0");
                        ("gh-token", "t0ken"); ("author-name", "Release Bot");
                        ("draft", "true"); ("labels", "backport, urgent")];
     git := fun _ => exits 0 "" "";
     now := 1700000000000;
     envRepository := Some "acme/widgets";
     created := response |}.

End Scripted.

(* ================================================================= *)
(** ** Observations on outcomes and traces *)

(** An outcome with events put in front of its trace. *)
Definition prepend {World A} (evs : list Event) (o : Outcome World A) : Outcome World A :=
  {| res := res o; events := (evs ++ events o)%list; final := final o |}.

(** The commit an event tries to apply, when the event is
    [git cherry-pick <commit> --no-commit]. *)
Definition attempt (e : Event) : list string :=
  match e with
  | EExec command [a; commit; b] =>
      if (command =? "git") && (a =? "cherry-pick") && (b =? "--no-commit")
      then [commit] else []
  | _ => []
  end.

(** The commits a trace tries to apply, in trace order, with repeats. *)
Definition applyAttempts (evs : list Event) : list string := flat_map attempt evs.

(** The event is [git cherry-pick --abort]. *)
Definition isAbort (e : Event) : bool :=
  match e with
  | EExec command [a; b] => (command =? "git") && (a =? "cherry-pick") && (b =? "--abort")
  | _ => false
  end.

Definition abortCount (evs : list Event) : nat := List.length (filter isAbort evs).

(** The event is a push, a pull-request creation or a label attachment. *)
Definition isDownstream (e : Event) : bool :=
  match e with
  | EExec command (a :: _) => (command =? "git") && (a =? "push")
  | EPullsCreate _ => true
  | EAddLabels _ => true
  | _ => false
  end.

Definition noDownstream (evs : list Event) : bool :=
  forallb (fun e => negb (isDownstream e)) evs.

(** The trace of one commit that is applied and kept. *)
Definition landed (commit : string) : list Event :=
  [EInfo ("Cherry-picking commit: " ++ commit);
   EExec "git" (applyArgs commit);
   EExec "git" (finalizeArgs commit);
   EInfo ("Successfully cherry-picked: " ++ commit)].

(** The commit a result stopped at, as a list. *)
Definition stoppedAt (r : CherryPickResult) : list string :=
  match failedCommit r with
  | Some c => [c]
  | None => []
  end.

(** The finalize step exited with 0. *)
Definition clean (r : ExecOutput) : Prop := exitCode r = 0%Z.

(** [sub] occurs somewhere in [s]. *)
Definition contains (s sub : string) : Prop := exists a b, s = a ++ sub ++ b.

(** The text has one of the three conflict markers somewhere. *)
Definition conflictMarked (text : string) : Prop :=
  exists marker, In marker ["UU"; "AA"; "DD"] /\ contains text marker.

(** The finalize step exited with 0, or printed "nothing to commit" on its
    standard output. *)
Definition tolerated (r : ExecOutput) : Prop :=
  exitCode r = 0%Z \/ contains (stdout r) "nothing to commit".

Section Properties.

Context {World : Type} {host : Host World}.

(** [Replayed fin w cs w']: starting in world [w], applying and finalizing
    the commits [cs] one after the other leads to [w']; every apply step
    exits with 0 and every finalize step satisfies [fin]. *)
Inductive Replayed (fin : ExecOutput -> Prop) : World -> list string -> World -> Prop :=
| Replayed_nil : forall w, Replayed fin w [] w
| Replayed_cons : forall w c cs r1 w1 r2 w2 w3,
    execute "git" (applyArgs c) ignoringReturnCode w = (r1, w1) ->
    exitCode r1 = 0%Z ->
    execute "git" (finalizeArgs c) noOptions w1 = (r2, w2) ->
    fin r2 ->
    Replayed fin w2 cs w3 ->
    Replayed fin w (c :: cs) w3.

(** The subjects [git log] reports for the commits, looked up one after
    the other from world [w]. *)
Fixpoint subjects (cs : list string) (w : World) : list string :=
  match cs with
  | [] => []
  | c :: rest =>
      let o := getCommitMessage c w in
      match res o with
      | Ok msg => msg :: subjects rest (final o)
      | Thrown _ => []
      end
  end.

(** No event of the action is a push or a hosting-platform call. *)
Definition Quiet {A} (m : M World A) : Prop :=
  forall w, noDownstream (events (m w)) = true.

(** The action does not change the world. *)
Definition Keeps {A} (m : M World A) : Prop := forall w, final (m w) = w.

(** The action never throws an [Error] with this message. *)
Definition Avoids (message : string) {A} (m : M World A) : Prop :=
  forall w, res (m w) <> Thrown (ErrorObj message).

(** No event of the action satisfies [P]. *)
Definition Without (P : Event -> bool) {A} (m : M World A) : Prop :=
  forall w, forallb (fun e => negb (P e)) (events (m w)) = true.

End Properties.

(** Every character of the string is white space. *)
Definition blank (s : string) : bool :=
  forallb Js.isWhiteSpace (list_ascii_of_string s).

Definition firstChar (s : string) : option ascii :=
  match s with
  | EmptyString => None
  | String c _ => Some c
  end.

Fixpoint lastChar (s : string) : option ascii :=
  match s with
  | EmptyString => None
  | String c EmptyString => Some c
  | String _ s' => lastChar s'
  end.

Definition notSpace (c : option ascii) : bool :=
  match c with
  | Some x => negb (Js.isWhiteSpace x)
  | None => true
  end.

(** The string neither starts nor ends with white space. *)
Definition trimmed (s : string) : bool :=
  notSpace (firstChar s) && notSpace (lastChar s).

(** [t] is [s] without the white space around it. *)
Definition trimOf (s t : string) : Prop :=
  exists l r, s = l ++ t ++ r /\ blank l = true /\ blank r = true /\ trimmed t = true.

(** The name the action synthesizes, written with list functions: the
    target branch with every "/" turned into "-", the first seven
    characters of the first commit, and the clock reading in decimal. *)
Definition synthesizedName (target firstCommit : string) (millis : Z) : string :=
  "cherrypick/" ++
  string_of_list_ascii
    (map (fun x => if Ascii.eqb x "/" then "-"%char else x) (list_ascii_of_string target)) ++
  "/" ++
  string_of_list_ascii (firstn 7 (list_ascii_of_string firstCommit)) ++
  "-" ++
  NilZero.string_of_int (Z.to_int millis).

(** One line of the default body, written with list functions: a dash, the
    first seven characters of the commit between backticks, the subject. *)
Definition commitLine (commit subject : string) : string :=
  "- " ++ backtick ++
  string_of_list_ascii (firstn 7 (list_ascii_of_string commit)) ++
  backtick ++ " " ++ subject ++ nl.

(** The strings of a list, one after the other. *)
Definition lines (l : list string) : string := fold_right append "" l.

(** The default body for the applied commits and their subjects. *)
Definition defaultBody (inputs : Inputs) (applied subjects : list string) : string :=
  bodyHeader inputs ++
  lines (map (fun p => commitLine (fst p) (snd p)) (combine applied subjects)) ++
  bodyFooter.

(** What [execCommand] puts after a stream it cut. *)
Definition truncationMarker : string := nl ++ "... [output truncated]".

(** What a stream listener of [execCommand] should end up with: all the
    chunks when they fit the buffer, otherwise their first [maxBuffer]
    characters and the marker. *)
Definition captured (maxBuffer : N) (chunks : list string) : string :=
  if (maxBuffer <? N.of_nat (String.length (lines chunks)))%N
  then string_of_list_ascii
         (firstn (N.to_nat maxBuffer) (list_ascii_of_string (lines chunks))) ++
       truncationMarker
  else lines chunks.

(** The buffer size a call of [execCommand] works with. *)
Definition bufferOf (options : ExecOptions) : N :=
  nullish (maxBuffer options) 10485760%N.

(** The message of the commit an event records, when the event is
    [git commit -m <message>]. *)
Definition finalizeMessage (e : Event) : list string :=
  match e with
  | EExec command [a; b; message] =>
      if (command =? "git") && (a =? "commit") && (b =? "-m") then [message] else []
  | _ => []
  end.

(** The messages of the commits a trace records, in trace order. *)
Definition finalizeMessages (evs : list Event) : list string :=
  flat_map finalizeMessage evs.

(** The event is [git status --porcelain]. *)
Definition isStatusCheck (e : Event) : bool :=
  match e with
  | EExec command [a; b] => (command =? "git") && (a =? "status") && (b =? "--porcelain")
  | _ => false
  end.

Definition statusChecks (evs : list Event) : nat := List.length (filter isStatusCheck evs).


(** The outputs a trace sets, in order, as name and value. *)
Definition outputs (evs : list Event) : list (string * string) :=
  flat_map (fun e => match e with
                     | ESetOutput name value => [(name, value)]
                     | _ => []
                     end) evs.

(** The messages a trace hands to [core.setFailed], in order. *)
Definition failures (evs : list Event) : list string :=
  flat_map (fun e => match e with
                     | ESetFailed message => [message]
                     | _ => []
                     end) evs.

(** The event sets an output or reports a failure. *)
Definition isReport (e : Event) : bool :=
  match e with
  | ESetOutput _ _ | ESetFailed _ => true
  | _ => false
  end.

(** The event sets an output, reports a failure, or applies a commit. *)
Definition isReportOrApply (e : Event) : bool :=
  isReport e || match attempt e with [] => false | _ => true end.

(** The message [run] reports for a thrown value. *)
Definition messageOf (e : JsError) : string :=
  match e with
  | ErrorObj message => message
  | NonError => "Unknown error occurred"
  end.

(** An outcome of the replay with [pre] put in front of the commits its
    result lists as applied. *)
Definition withApplied {World} (pre : list string)
    (o : Outcome World CherryPickResult) : Outcome World CherryPickResult :=
  {| res := match res o with
            | Ok r => Ok {| status := status r;
                            successfulCommits := (pre ++ successfulCommits r)%list;
                            failedCommit := failedCommit r; error := error r |}
            | Thrown e => Thrown e
            end;
     events := events o; final := final o |}.

(** The events of a setup that got past validation, up to the first git
    command. *)
Definition preamble {World} (inputs : Inputs) (branchName : string) (w : World)
    : list Event :=
  (ESetSecret (ghToken inputs) :: events (printHeader inputs w) ++
   [EInfo ("Using branch name: " ++ branchName)])%list.






(* ================================================================= *)
(** ** String facts *)

Lemma prefix_app (p s : string) :
  prefix p s = true <-> exists b, s = p ++ b.
Proof.
  revert s; induction p as [|c p IH]; intros s.
  - destruct s; simpl; split; intros; eauto.
  - destruct s as [|d s]; simpl.
    + split; [discriminate | intros [b Hb]; discriminate].
    + destruct (ascii_dec c d) as [->|Hne].
      * rewrite IH. split; intros [b Hb]; exists b; congruence.
      * split; [discriminate | intros [b Hb]; congruence].
Qed.

Lemma includes_app (s sub : string) :
  Js.includes s sub = true <-> contains s sub.
Proof.
  unfold contains. induction s as [|c s IH]; cbn [Js.includes].
  - rewrite orb_false_r, prefix_app. split.
    + intros [b Hb]. exists "", b. exact Hb.
    + intros [a [b Hb]]. destruct a; simpl in Hb; [eauto | discriminate].
  - rewrite orb_true_iff, prefix_app, IH. split.
    + intros [[b Hb] | [a [b Hb]]].
      * exists "", b. exact Hb.
      * exists (String c a), b. simpl. congruence.
    + intros [a [b Hb]]. destruct a as [|d a]; simpl in Hb.
      * left. eauto.
      * right. exists a, b. congruence.
Qed.

Lemma includes_not (s sub : string) :
  Js.includes s sub = false <-> ~ contains s sub.
Proof.
  rewrite <- includes_app. destruct (Js.includes s sub); split; intros H;
    try reflexivity; try discriminate; try (intros K; discriminate K).
  exfalso. now apply H.
Qed.

Lemma hasConflict_spec (text : string) :
  hasConflict text = true <-> conflictMarked text.
Proof.
  unfold hasConflict, conflictMarked. rewrite !orb_true_iff, !includes_app. split.
  - intros [[H|H]|H]; [exists "UU"|exists "AA"|exists "DD"]; cbn [In]; auto.
  - intros (m & [<-|[<-|[<-|[]]]] & H); auto.
Qed.

Lemma hasConflict_not (text : string) :
  hasConflict text = false <-> ~ conflictMarked text.
Proof.
  rewrite <- hasConflict_spec. destruct (hasConflict text); split; intros H;
    try reflexivity; try discriminate; try (intros K; discriminate K).
  exfalso. now apply H.
Qed.

Lemma truthy_false (s : string) : Js.truthy s = false <-> s = "".
Proof.
  unfold Js.truthy. destruct s; simpl; split; intros; congruence.
Qed.

Lemma truthy_true (s : string) : Js.truthy s = true <-> s <> "".
Proof.
  unfold Js.truthy. destruct s; simpl; split; intros; congruence.
Qed.

Lemma split_cons (sep : ascii) (s : string) :
  exists h t, Js.split sep s = h :: t.
Proof.
  induction s as [|c s [h [t IH]]]; simpl; eauto.
  destruct (Ascii.eqb c sep); eauto. rewrite IH. eauto.
Qed.

(* ================================================================= *)
(** ** What trimming, splitting and the other string primitives compute *)

Lemma trimStart_spec (s : string) :
  exists l, s = l ++ Js.trimStart s /\ blank l = true /\
            notSpace (firstChar (Js.trimStart s)) = true.
Proof.
  induction s as [|c s (l & E & B & F)]; cbn [Js.trimStart].
  - exists "". repeat split.
  - destruct (Js.isWhiteSpace c) eqn:W.
    + exists (String c l). cbn [append]. rewrite <- E. unfold blank in *.
      cbn [list_ascii_of_string forallb]. rewrite W. repeat split; assumption.
    + exists "". cbn [append firstChar notSpace]. rewrite W. repeat split.
Qed.

Lemma trimEnd_spec (s : string) :
  exists r, s = Js.trimEnd s ++ r /\ blank r = true /\
            notSpace (lastChar (Js.trimEnd s)) = true.
Proof.
  induction s as [|c s (r & E & B & L)]; cbn [Js.trimEnd].
  - exists "". repeat split.
  - destruct (Js.trimEnd s) as [|d t] eqn:T.
    + cbn [append] in E. subst r. destruct (Js.isWhiteSpace c) eqn:W.
      * exists (String c s). unfold blank in *.
        cbn [append list_ascii_of_string forallb]. rewrite W. repeat split. exact B.
      * exists s. cbn [append lastChar notSpace]. rewrite W. repeat split. exact B.
    + exists r. split; [cbn [append] in *; now rewrite <- E|].
      split; [exact B | exact L].
Qed.

Lemma trimEnd_first (s : string) :
  Js.trimEnd s = "" \/ firstChar (Js.trimEnd s) = firstChar s.
Proof.
  destruct s as [|c s]; cbn [Js.trimEnd]; [now left|].
  destruct (Js.trimEnd s); [destruct (Js.isWhiteSpace c)|]; auto.
Qed.

Lemma trim_spec (s : string) : trimOf s (Js.trim s).
Proof.
  unfold trimOf, Js.trim.
  destruct (trimStart_spec s) as (l & El & Bl & F).
  destruct (trimEnd_spec (Js.trimStart s)) as (r & Er & Br & L).
  exists l, r. split; [now rewrite <- Er|]. repeat split; try assumption.
  unfold trimmed. rewrite L, andb_true_r.
  destruct (trimEnd_first (Js.trimStart s)) as [-> | ->]; [reflexivity | exact F].
Qed.

Lemma replaceAll_list (c d : ascii) (s : string) :
  Js.replaceAll c d s =
  string_of_list_ascii
    (map (fun x => if Ascii.eqb x c then d else x) (list_ascii_of_string s)).
Proof.
  induction s as [|x s IH]; cbn; [reflexivity | now rewrite IH].
Qed.

Lemma substring0_list (n : nat) (s : string) :
  Js.substring0 n s = string_of_list_ascii (firstn n (list_ascii_of_string s)).
Proof.
  unfold Js.substring0. revert s; induction n as [|n IH]; intros [|x s]; cbn;
    try reflexivity.
  now rewrite IH.
Qed.

(** Splitting cuts at every separator and nowhere else. *)
Lemma split_join (sep : ascii) (s : string) :
  Js.join (String sep "") (Js.split sep s) = s /\
  Forall (fun e => ~ In sep (list_ascii_of_string e)) (Js.split sep s).
Proof.
  induction s as [|c s [J F]]; cbn [Js.split].
  - split; [reflexivity | repeat constructor; intros []].
  - destruct (Ascii.eqb_spec c sep) as [->|N].
    + destruct (split_cons sep s) as (h & t & E). rewrite E in *. split.
      * change (Js.join (String sep "") ("" :: h :: t))
          with ("" ++ String sep "" ++ Js.join (String sep "") (h :: t)).
        now rewrite J.
      * constructor; [intros [] | exact F].
    + destruct (split_cons sep s) as (h & t & E). rewrite E in *. split.
      * destruct t as [|x t].
        -- cbn [Js.join] in *. now rewrite J.
        -- change (Js.join (String sep "") (String c h :: x :: t))
             with (String c (h ++ String sep "" ++ Js.join (String sep "") (x :: t))).
           change (Js.join (String sep "") (h :: x :: t))
             with (h ++ String sep "" ++ Js.join (String sep "") (x :: t)) in J.
           now rewrite J.
      * inversion F as [|? ? Fh Ft]; subst. constructor; [|exact Ft].
        cbn. intros [->|I]; [now apply N | now apply Fh].
Qed.

(* ================================================================= *)
(** ** Running actions step by step *)

Section Steps.

Context {World : Type} {host : Host World}.

Lemma prepend_nil {A} (o : Outcome World A) : prepend [] o = o.
Proof. destruct o; reflexivity. Qed.

Lemma prepend_prepend {A} (a b : list Event) (o : Outcome World A) :
  prepend a (prepend b o) = prepend (a ++ b)%list o.
Proof. unfold prepend; simpl. now rewrite app_assoc. Qed.

Lemma bind_emit {B} (e : Event) (k : unit -> M World B) (w : World) :
  bind (emit e) k w = prepend [e] (k tt w).
Proof. reflexivity. Qed.


Lemma bind_execCommand {B} command args options (k : ExecOutput -> M World B)
    (w w' : World) (r : ExecOutput) :
  execute command args options w = (r, w') ->
  bind (execCommand command args options) k w = prepend [EExec command args] (k r w').
Proof.
  intros H. unfold bind, execCommand. rewrite H. reflexivity.
Qed.

Lemma execute_eta command args options (w : World) :
  execute command args options w =
  (fst (execute command args options w), snd (execute command args options w)).
Proof. apply surjective_pairing. Qed.

(** The four ways one iteration of the replay loop can go. *)

Lemma step_landed (c : string) (rest acc : list string) (w w1 w2 : World) r1 r2 :
  execute "git" (applyArgs c) ignoringReturnCode w = (r1, w1) ->
  exitCode r1 = 0%Z ->
  execute "git" (finalizeArgs c) noOptions w1 = (r2, w2) ->
  tolerated r2 ->
  cherryPickLoop (c :: rest) acc w =
  prepend (landed c) (cherryPickLoop rest (acc ++ [c])%list w2).
Proof.
  intros H1 E1 H2 T2. cbn [cherryPickLoop]. unfold core_info.
  rewrite bind_emit, (bind_execCommand _ _ _ _ _ H1), E1. cbn [Z.eqb negb].
  rewrite (bind_execCommand _ _ _ _ _ H2).
  assert (negb (exitCode r2 =? 0)%Z &&
          negb (Js.includes (stdout r2) "nothing to commit") = false) as ->.
  { destruct T2 as [T2|T2]; [|apply includes_app in T2]; rewrite T2;
      [reflexivity | apply andb_false_r]. }
  rewrite bind_emit, !prepend_prepend. reflexivity.
Qed.

Lemma step_finalize_failed (c : string) (rest acc : list string) (w w1 w2 : World) r1 r2 :
  execute "git" (applyArgs c) ignoringReturnCode w = (r1, w1) ->
  exitCode r1 = 0%Z ->
  execute "git" (finalizeArgs c) noOptions w1 = (r2, w2) ->
  exitCode r2 <> 0%Z ->
  Js.includes (stdout r2) "nothing to commit" = false ->
  cherryPickLoop (c :: rest) acc w =
  {| res := Ok {| status := Failed; successfulCommits := acc; failedCommit := Some c;
                  error := Some ("Failed to commit cherry-pick: " ++ stderr r2) |};
     events := [EInfo ("Cherry-picking commit: " ++ c);
                EExec "git" (applyArgs c); EExec "git" (finalizeArgs c)];
     final := w2 |}.
Proof.
  intros H1 E1 H2 E2 N2. cbn [cherryPickLoop]. unfold core_info.
  rewrite bind_emit, (bind_execCommand _ _ _ _ _ H1), E1. cbn [Z.eqb negb].
  rewrite (bind_execCommand _ _ _ _ _ H2), N2.
  apply Z.eqb_neq in E2. rewrite E2. reflexivity.
Qed.

Lemma step_conflict (c : string) (rest acc : list string) (w w1 w2 : World) r1 st :
  execute "git" (applyArgs c) ignoringReturnCode w = (r1, w1) ->
  exitCode r1 <> 0%Z ->
  execute "git" statusArgs noOptions w1 = (st, w2) ->
  hasConflict (stdout st) = true ->
  cherryPickLoop (c :: rest) acc w =
  {| res := Ok {| status := Conflict; successfulCommits := acc; failedCommit := Some c;
                  error := Some ("Merge conflict while cherry-picking commit " ++ c) |};
     events := [EInfo ("Cherry-picking commit: " ++ c);
                EExec "git" (applyArgs c); EExec "git" statusArgs;
                EWarning ("Conflict detected while cherry-picking " ++ c);
                EExec "git" abortArgs];
     final := snd (execute "git" abortArgs ignoringReturnCode w2) |}.
Proof.
  intros H1 E1 H2 C2. cbn [cherryPickLoop]. unfold core_info, core_warning.
  apply Z.eqb_neq in E1.
  rewrite bind_emit, (bind_execCommand _ _ _ _ _ H1), E1. cbn [negb].
  rewrite (bind_execCommand _ _ _ _ _ H2), C2.
  rewrite bind_emit, (bind_execCommand _ _ _ _ _ (execute_eta _ _ _ _)).
  reflexivity.
Qed.

Lemma step_apply_failed (c : string) (rest acc : list string) (w w1 w2 : World) r1 st :
  execute "git" (applyArgs c) ignoringReturnCode w = (r1, w1) ->
  exitCode r1 <> 0%Z ->
  execute "git" statusArgs noOptions w1 = (st, w2) ->
  hasConflict (stdout st) = false ->
  cherryPickLoop (c :: rest) acc w =
  {| res := Ok {| status := Failed; successfulCommits := acc; failedCommit := Some c;
                  error := Some (Js.or (stderr r1) (stdout r1)) |};
     events := [EInfo ("Cherry-picking commit: " ++ c);
                EExec "git" (applyArgs c); EExec "git" statusArgs];
     final := w2 |}.
Proof.
  intros H1 E1 H2 C2. cbn [cherryPickLoop]. unfold core_info.
  apply Z.eqb_neq in E1.
  rewrite bind_emit, (bind_execCommand _ _ _ _ _ H1), E1. cbn [negb].
  rewrite (bind_execCommand _ _ _ _ _ H2), C2.
  reflexivity.
Qed.

Lemma clean_tolerated (r : ExecOutput) : clean r -> tolerated r.
Proof. intros H; left; exact H. Qed.

Lemma Replayed_weaken (P Q : ExecOutput -> Prop) (w w' : World) (cs : list string) :
  (forall r, P r -> Q r) -> Replayed P w cs w' -> Replayed Q w cs w'.
Proof.
  intros PQ H; induction H; econstructor; eauto.
Qed.

Lemma Replayed_clean_tolerated (w w' : World) (cs : list string) :
  Replayed clean w cs w' -> Replayed tolerated w cs w'.
Proof. apply Replayed_weaken. exact clean_tolerated. Qed.

(** A replayed prefix leaves the loop where it would be had it started
    after the prefix, with the prefix recorded as applied. *)
Lemma replay_prefix (pre : list string) (w w1 : World) :
  Replayed tolerated w pre w1 ->
  forall post acc,
    cherryPickLoop (pre ++ post)%list acc w =
    prepend (flat_map landed pre) (cherryPickLoop post (acc ++ pre)%list w1).
Proof.
  induction 1 as [w|w c cs r1 w1 r2 w2 w3 H1 E1 H2 T2 _ IH]; intros post acc.
  - cbn [app flat_map]. now rewrite app_nil_r, prepend_nil.
  - rewrite <- app_comm_cons.
    erewrite step_landed by eassumption.
    rewrite IH, prepend_prepend, <- app_assoc. reflexivity.
Qed.

Lemma applyAttempts_app (a b : list Event) :
  applyAttempts (a ++ b) = (applyAttempts a ++ applyAttempts b)%list.
Proof. apply flat_map_app. Qed.

Lemma applyAttempts_landed (cs : list string) :
  applyAttempts (flat_map landed cs) = cs.
Proof.
  induction cs as [|c cs IH]; [reflexivity|].
  cbn [flat_map]. rewrite applyAttempts_app, IH. reflexivity.
Qed.

Lemma abortCount_app (a b : list Event) :
  abortCount (a ++ b) = abortCount a + abortCount b.
Proof. unfold abortCount. now rewrite filter_app, length_app. Qed.

Lemma abortCount_landed (cs : list string) :
  abortCount (flat_map landed cs) = 0.
Proof.
  induction cs as [|c cs IH]; [reflexivity|].
  cbn [flat_map]. rewrite abortCount_app, IH. reflexivity.
Qed.

End Steps.

(* ================================================================= *)
(** ** The replay engine *)

Section Engine.

Context {World : Type} {host : Host World}.

(** Whatever git answers, the loop returns a result; the commits it
    recorded are those it was given plus a prefix [done] of what was left,
    it tried to apply exactly [done] and then the commit it stopped at, and
    it stopped at the first commit after [done] unless it reports
    success. *)
Lemma loop_shape (remaining : list string) :
  forall (acc : list string) (w : World),
  exists r done rest,
    res (cherryPickLoop remaining acc w) = Ok r /\
    remaining = (done ++ rest)%list /\
    successfulCommits r = (acc ++ done)%list /\
    applyAttempts (events (cherryPickLoop remaining acc w)) = (done ++ stoppedAt r)%list /\
    match status r with
    | Success => rest = [] /\ failedCommit r = None
    | _ => exists c rest', rest = c :: rest' /\ failedCommit r = Some c
    end.
Proof.
  induction remaining as [|c remaining IH]; intros acc w.
  - eexists _, [], []. cbn. rewrite app_nil_r. repeat split.
  - destruct (execute "git" (applyArgs c) ignoringReturnCode w) as [r1 w1] eqn:H1.
    assert (Landed : forall r2 w2,
               execute "git" (finalizeArgs c) noOptions w1 = (r2, w2) ->
               exitCode r1 = 0%Z -> tolerated r2 ->
               exists r done rest,
                 res (cherryPickLoop (c :: remaining) acc w) = Ok r /\
                 c :: remaining = (done ++ rest)%list /\
                 successfulCommits r = (acc ++ done)%list /\
                 applyAttempts (events (cherryPickLoop (c :: remaining) acc w)) =
                   (done ++ stoppedAt r)%list /\
                 match status r with
                 | Success => rest = [] /\ failedCommit r = None
                 | _ => exists c rest', rest = c :: rest' /\ failedCommit r = Some c
                 end).
    { intros r2 w2 H2 E1 T2.
      destruct (IH (acc ++ [c])%list w2) as (r & done & rest & R & S & A & T & K).
      exists r, (c :: done), rest.
      erewrite step_landed by eassumption. cbn [prepend res events].
      rewrite applyAttempts_app, T, A, <- app_assoc.
      repeat split; auto. cbn. now rewrite S. }
    destruct (Z.eq_dec (exitCode r1) 0) as [E1|E1].
    + destruct (execute "git" (finalizeArgs c) noOptions w1) as [r2 w2] eqn:H2.
      destruct (Z.eq_dec (exitCode r2) 0) as [E2|E2].
      * apply (Landed r2 w2); auto. left; exact E2.
      * destruct (Js.includes (stdout r2) "nothing to commit") eqn:N2.
        -- apply (Landed r2 w2); auto. right; apply includes_app; exact N2.
        -- erewrite step_finalize_failed by eassumption.
           eexists _, [], (c :: remaining). cbn. rewrite app_nil_r.
           repeat split; cbn; eauto.
    + destruct (execute "git" statusArgs noOptions w1) as [st w2] eqn:H2.
      destruct (hasConflict (stdout st)) eqn:C2.
      * erewrite step_conflict by eassumption.
        eexists _, [], (c :: remaining). cbn. rewrite app_nil_r.
        repeat split; cbn; eauto.
      * erewrite step_apply_failed by eassumption.
        eexists _, [], (c :: remaining). cbn. rewrite app_nil_r.
        repeat split; cbn; eauto.
Qed.

(** As long as commits are left, the loop tries to apply the next one. *)
Lemma loop_tries_next (d : string) (rest acc : list string) (w : World) :
  exists t, applyAttempts (events (cherryPickLoop (d :: rest) acc w)) = d :: t.
Proof.
  destruct (loop_shape (d :: rest) acc w) as (r & done & left & _ & S & _ & T & K).
  rewrite T. destruct done as [|x done].
  - cbn in S. subst left. destruct (status r).
    + destruct K as [K _]; discriminate K.
    + destruct K as (c & rest' & E & F). injection E as <- <-.
      unfold stoppedAt. rewrite F. cbn. eauto.
    + destruct K as (c & rest' & E & F). injection E as <- <-.
      unfold stoppedAt. rewrite F. cbn. eauto.
  - injection S as <- _. cbn. eauto.
Qed.

(** C1. For every non-empty list of commits whose apply steps and finalize
    steps all exit with 0, [cherryPickCommits] returns status [success]
    with [successfulCommits] equal to the whole input list in input order
    (and no failed commit, no error); its trace is the four events of each
    commit in turn. *)
Theorem replay_all_clean (commits : list string) (w w' : World) :
  commits <> [] ->
  Replayed clean w commits w' ->
  cherryPickCommits commits w =
  {| res := Ok {| status := Success; successfulCommits := commits;
                  failedCommit := None; error := None |};
     events := flat_map landed commits;
     final := w' |}.
Proof.
  intros _ H. unfold cherryPickCommits.
  rewrite <- (app_nil_r commits) at 1.
  rewrite (replay_prefix (Replayed_clean_tolerated H)).
  cbn [cherryPickLoop app]. unfold prepend, ret.
  cbn [res events final]. now rewrite app_nil_r.
Qed.

(** C2. Let the input be [pre ++ c :: post], so that [c] is the k-th commit
    for k = length pre + 1.  When the commits of [pre] apply and finalize
    with exit code 0, the apply of [c] exits with a non-zero code and the
    captured text of [git status --porcelain] contains "UU", "AA" or "DD",
    [cherryPickCommits] returns status [conflict], [successfulCommits] is
    exactly [pre], [failedCommit] is [c], [error] is
    "Merge conflict while cherry-picking commit <c>",
    [git cherry-pick --abort] runs exactly once (as the last event), and
    the only commits ever applied are [pre] and then [c]: no commit of
    [post] is attempted. *)
Theorem replay_conflict_at (pre post : list string) (c : string)
    (w w1 w2 w3 : World) (r st : ExecOutput) :
  Replayed clean w pre w1 ->
  execute "git" (applyArgs c) ignoringReturnCode w1 = (r, w2) ->
  exitCode r <> 0%Z ->
  execute "git" statusArgs noOptions w2 = (st, w3) ->
  conflictMarked (stdout st) ->
  let o := cherryPickCommits (pre ++ c :: post) w in
  res o = Ok {| status := Conflict; successfulCommits := pre;
                failedCommit := Some c;
                error := Some ("Merge conflict while cherry-picking commit " ++ c) |} /\
  events o = (flat_map landed pre ++
              [EInfo ("Cherry-picking commit: " ++ c);
               EExec "git" (applyArgs c); EExec "git" statusArgs;
               EWarning ("Conflict detected while cherry-picking " ++ c);
               EExec "git" abortArgs])%list /\
  abortCount (events o) = 1 /\
  applyAttempts (events o) = (pre ++ [c])%list /\
  final o = snd (execute "git" abortArgs ignoringReturnCode w3).
Proof.
  intros H H1 E1 H2 C2 o. subst o. unfold cherryPickCommits.
  apply hasConflict_spec in C2.
  rewrite (replay_prefix (Replayed_clean_tolerated H)).
  erewrite step_conflict by eassumption.
  cbn [prepend res events final app].
  rewrite abortCount_app, abortCount_landed, applyAttempts_app, applyAttempts_landed.
  repeat split.
Qed.

(** C3. For every commit list and whatever git answers, [cherryPickCommits]
    returns a result whose [successfulCommits] is a prefix of the input in
    input order: the whole input when the status is [success], and
    otherwise a strict prefix (possibly empty) followed in the input by the
    commit it stopped at.  The commits it tried to apply are exactly that
    prefix followed by the failed commit: nothing is reordered, skipped or
    retried. *)
Theorem applied_is_prefix (commits : list string) (w : World) :
  exists r rest,
    res (cherryPickCommits commits w) = Ok r /\
    commits = (successfulCommits r ++ rest)%list /\
    applyAttempts (events (cherryPickCommits commits w)) =
      (successfulCommits r ++ stoppedAt r)%list /\
    match status r with
    | Success => rest = [] /\ failedCommit r = None
    | Conflict | Failed => exists c rest', rest = c :: rest' /\ failedCommit r = Some c
    end.
Proof.
  destruct (loop_shape commits [] w) as (r & done & rest & R & S & A & T & K).
  cbn in A. exists r, rest. unfold cherryPickCommits.
  rewrite A, R, T. repeat split; auto.
Qed.

(** C4. Let the commits before [c] be applied, and let the apply of [c] exit
    with 0 and its finalize step ([git commit]) exit with a non-zero code.
    If the captured standard output of the finalize step contains
    "nothing to commit", the replay goes on exactly as the loop over the
    remaining commits with [c] recorded as applied: [c] is in
    [successfulCommits] and the next commit, if any, is attempted.
    Otherwise the replay returns status [failed], [successfulCommits] holds
    only the commits before [c], and [error] is
    "Failed to commit cherry-pick: " followed by the standard error of the
    finalize step; no later commit is attempted. *)
Theorem finalize_failure (pre post : list string) (c : string)
    (w w1 w2 w3 : World) (r1 r2 : ExecOutput) :
  Replayed tolerated w pre w1 ->
  execute "git" (applyArgs c) ignoringReturnCode w1 = (r1, w2) ->
  exitCode r1 = 0%Z ->
  execute "git" (finalizeArgs c) noOptions w2 = (r2, w3) ->
  exitCode r2 <> 0%Z ->
  let o := cherryPickCommits (pre ++ c :: post) w in
  (contains (stdout r2) "nothing to commit" ->
     o = prepend (flat_map landed (pre ++ [c]))
           (cherryPickLoop post (pre ++ [c])%list w3) /\
     (exists r more, res o = Ok r /\ successfulCommits r = (pre ++ c :: more)%list) /\
     (forall d post', post = d :: post' ->
        exists t, applyAttempts (events o) = (pre ++ c :: d :: t)%list)) /\
  (~ contains (stdout r2) "nothing to commit" ->
     res o = Ok {| status := Failed; successfulCommits := pre;
                   failedCommit := Some c;
                   error := Some ("Failed to commit cherry-pick: " ++ stderr r2) |} /\
     applyAttempts (events o) = (pre ++ [c])%list /\
     final o = w3).
Proof.
  intros H H1 E1 H2 E2 o. subst o. unfold cherryPickCommits.
  rewrite (replay_prefix H). cbn [app]. split; intros N2.
  - erewrite step_landed by (try eassumption; right; exact N2).
    rewrite prepend_prepend, flat_map_app. cbn [flat_map]. rewrite app_nil_r.
    split; [reflexivity|]. split.
    + destruct (loop_shape post (pre ++ [c])%list w3)
        as (r & done & rest & R & _ & A & _).
      exists r, done. cbn [prepend res]. rewrite R, A, <- app_assoc. split; reflexivity.
    + intros d post' ->. destruct (loop_tries_next d post' (pre ++ [c])%list w3) as [t T].
      exists t. cbn [prepend events].
      rewrite applyAttempts_app, T, applyAttempts_app, applyAttempts_landed.
      rewrite <- app_assoc. reflexivity.
  - apply includes_not in N2. erewrite step_finalize_failed by eassumption.
    cbn [prepend res events final].
    rewrite applyAttempts_app, applyAttempts_landed. repeat split.
Qed.

(** C9. Let the commits before [c] be applied and let the apply of [c] exit
    with a non-zero code.  Then the result has status [conflict] exactly
    when the captured text of [git status --porcelain] contains "UU", "AA"
    or "DD" somewhere as a substring; otherwise it has status [failed], and
    [error] is the captured standard error of the apply step when that is
    not empty, and its captured standard output when it is.  In both cases
    [c] is the failed commit and the commits before it are the applied
    ones. *)
Theorem apply_failure_classified (pre post : list string) (c : string)
    (w w1 w2 w3 : World) (r st : ExecOutput) :
  Replayed tolerated w pre w1 ->
  execute "git" (applyArgs c) ignoringReturnCode w1 = (r, w2) ->
  exitCode r <> 0%Z ->
  execute "git" statusArgs noOptions w2 = (st, w3) ->
  exists result,
    res (cherryPickCommits (pre ++ c :: post) w) = Ok result /\
    successfulCommits result = pre /\
    failedCommit result = Some c /\
    (status result = Conflict <-> conflictMarked (stdout st)) /\
    (status result <> Conflict ->
     status result = Failed /\
     (stderr r <> "" -> error result = Some (stderr r)) /\
     (stderr r = "" -> error result = Some (stdout r))).
Proof.
  intros H H1 E1 H2. unfold cherryPickCommits.
  rewrite (replay_prefix H). cbn [app].
  pose proof (hasConflict_spec (stdout st)) as Marked.
  destruct (hasConflict (stdout st)) eqn:C2.
  - erewrite step_conflict by eassumption. eexists. cbn [prepend res].
    split; [reflexivity|]. cbn [status successfulCommits failedCommit error].
    split; [reflexivity|]. split; [reflexivity|]. split.
    + split; [intros _; now apply Marked | reflexivity].
    + intros N; now contradiction N.
  - erewrite step_apply_failed by eassumption. eexists. cbn [prepend res].
    split; [reflexivity|]. cbn [status successfulCommits failedCommit error].
    split; [reflexivity|]. split; [reflexivity|]. split.
    + split; [discriminate | intros M; apply Marked in M; discriminate].
    + intros _. split; [reflexivity|]. unfold Js.or. split; intros N.
      * apply truthy_true in N. now rewrite N.
      * apply truthy_false in N. now rewrite N.
Qed.

End Engine.

(* ================================================================= *)
(** ** Actions that neither push nor talk to the hosting platform *)

Section Quiet.

Context {World : Type} {host : Host World}.

Lemma noDownstream_app (a b : list Event) :
  noDownstream (a ++ b) = noDownstream a && noDownstream b.
Proof. apply forallb_app. Qed.

Lemma quiet_ret {A} (a : A) : Quiet (ret (World := World) a).
Proof. intros w; reflexivity. Qed.

Lemma quiet_throw {A} (e : JsError) : Quiet (@throw World A e).
Proof. intros w; reflexivity. Qed.

Lemma quiet_lift {A} (f : World -> Result A) : Quiet (lift f).
Proof. intros w; reflexivity. Qed.

Lemma quiet_observe {A} (f : World -> A) : Quiet (observe f).
Proof. intros w; reflexivity. Qed.

Lemma quiet_emit (e : Event) : isDownstream e = false -> Quiet (@emit World e).
Proof. intros H w. cbn. now rewrite H. Qed.

Lemma quiet_execCommand command args options :
  isDownstream (EExec command args) = false ->
  Quiet (execCommand command args options).
Proof.
  intros H w. unfold execCommand.
  destruct (execute command args options w). cbn [events noDownstream forallb].
  now rewrite H.
Qed.

Lemma quiet_bind {A B} (m : M World A) (k : A -> M World B) :
  Quiet m -> (forall a, Quiet (k a)) -> Quiet (bind m k).
Proof.
  intros Hm Hk w. unfold bind. specialize (Hm w).
  destruct (res (m w)); cbn [events]; [|exact Hm].
  rewrite noDownstream_app, Hm. apply Hk.
Qed.

Lemma quiet_tryCatch {A} (m : M World A) (h : JsError -> M World A) :
  Quiet m -> (forall e, Quiet (h e)) -> Quiet (tryCatch m h).
Proof.
  intros Hm Hh w. unfold tryCatch. specialize (Hm w).
  destruct (res (m w)); cbn [events]; [exact Hm|].
  rewrite noDownstream_app, Hm. apply Hh.
Qed.

End Quiet.

(** Decomposes an action into its steps and checks every event it names. *)
Ltac quiet :=
  repeat first
    [ apply quiet_ret
    | apply quiet_throw
    | apply quiet_lift
    | apply quiet_observe
    | apply quiet_emit; reflexivity
    | apply quiet_execCommand; reflexivity
    | apply quiet_bind; [|intros ?]
    | match goal with
      | |- Quiet (if ?b then _ else _) => destruct b
      | |- Quiet (match ?x with _ => _ end) => destruct x
      | |- Quiet (let '(_, _) := ?x in _) => destruct x
      end ].

Section QuietSteps.

Context {World : Type} {host : Host World}.

Lemma quiet_cherryPickLoop (remaining acc : list string) :
  Quiet (cherryPickLoop remaining acc).
Proof.
  revert acc; induction remaining as [|c remaining IH]; intros acc;
    cbn [cherryPickLoop]; unfold core_info, core_warning; quiet.
  apply IH.
Qed.

Lemma quiet_cherryPickCommits (commits : list string) :
  Quiet (cherryPickCommits commits).
Proof. apply quiet_cherryPickLoop. Qed.

Lemma quiet_printSummary inputs branchName r prUrl prNumber :
  Quiet (printSummary (World := World) inputs branchName r prUrl prNumber).
Proof.
  unfold printSummary, whenTruthy, console_log; quiet.
Qed.

Lemma quiet_setup : Quiet setup.
Proof.
  unfold setup, readInputs, input, printHeader, chooseBranchName, generateBranchName,
    configureGit, fetchBranch, createBranch, core_setSecret, core_info, console_log.
  quiet.
Qed.

End QuietSteps.

(* ================================================================= *)
(** ** The run *)

Section Run.

Context {World : Type} {host : Host World}.

Lemma run_unfold : run = tryCatch runBody handler.
Proof. reflexivity. Qed.

Lemma quiet_handler (e : JsError) : Quiet (handler (World := World) e).
Proof. destruct e; unfold handler, core_setFailed; quiet. Qed.

Lemma tryCatch_bind_ok {A B} (m : M World A) (k : A -> M World B) h (w : World) (a : A) :
  res (m w) = Ok a ->
  tryCatch (bind m k) h w = prepend (events (m w)) (tryCatch (k a) h (final (m w))).
Proof.
  intros H. unfold tryCatch, bind, prepend. rewrite H. cbn [res events final].
  destruct (res (k a (final (m w)))) eqn:E; cbn [res events final].
  - now rewrite E.
  - now rewrite app_assoc.
Qed.

Lemma tryCatch_bind_thrown {A B} (m : M World A) (k : A -> M World B) h (w : World) e :
  res (m w) = Thrown e ->
  tryCatch (bind m k) h w = prepend (events (m w)) (h e (final (m w))).
Proof.
  intros H. unfold tryCatch, bind, prepend. rewrite H. reflexivity.
Qed.

(** The replay always returns a result. *)
Lemma cherryPickCommits_returns (commits : list string) (w : World) :
  exists r, res (cherryPickCommits commits w) = Ok r.
Proof.
  destruct (loop_shape commits [] w) as (r & _ & _ & R & _). eauto.
Qed.

(** [run] never throws: the [catch] clause turns every exception into a
    call of [core.setFailed]. *)
Lemma run_returns (w : World) : res (run w) = Ok tt.
Proof.
  rewrite run_unfold. unfold tryCatch.
  destruct (res (runBody w)) as [[]|e] eqn:E; [exact E|].
  destruct e; reflexivity.
Qed.

(** A run whose setup throws stops there. *)
Lemma run_setup_thrown (w : World) (e : JsError) :
  res (setup w) = Thrown e ->
  run w = prepend (events (setup w)) (handler e (final (setup w))).
Proof.
  intros H. rewrite run_unfold. unfold runBody.
  erewrite tryCatch_bind_thrown by exact H. reflexivity.
Qed.

(** A run whose setup succeeds is the setup, the replay, the two outputs,
    and then what line 334 onwards does with the result. *)
Lemma run_setup_ok (w : World) (inputs : Inputs) (branchName : string)
    (r : CherryPickResult) :
  res (setup w) = Ok (inputs, branchName) ->
  res (cherryPickCommits (commits inputs) (final (setup w))) = Ok r ->
  run w =
  prepend (events (setup w))
    (prepend (events (cherryPickCommits (commits inputs) (final (setup w))))
       (prepend [ESetOutput "cherry-pick-status" (statusText (status r));
                 ESetOutput "branch-name" branchName]
          (tryCatch (conclude inputs branchName r) handler
             (final (cherryPickCommits (commits inputs) (final (setup w))))))).
Proof.
  intros S R. rewrite run_unfold. unfold runBody.
  erewrite tryCatch_bind_ok by exact S. cbn iota beta.
  erewrite tryCatch_bind_ok by exact R.
  unfold core_setOutput.
  erewrite tryCatch_bind_ok by reflexivity.
  erewrite tryCatch_bind_ok by reflexivity.
  cbn [emit events final]. rewrite (prepend_prepend [_] [_]). reflexivity.
Qed.

(** After a conflict or a failure, nothing is pushed and no hosting-platform
    call is made. *)
Lemma quiet_conclude (inputs : Inputs) (branchName : string) (r : CherryPickResult) :
  status r <> Success ->
  Quiet (tryCatch (conclude inputs branchName r) handler).
Proof.
  intros N. apply quiet_tryCatch; [|apply quiet_handler].
  unfold conclude. destruct (status r); [congruence| |];
    unfold printSummary, whenTruthy, console_log, core_warning, core_setFailed; quiet.
Qed.

(** C5. In every run, a push, a pull-request creation or a label attachment
    happens only if the setup succeeded and the replay returned status
    [success]; when the replay returns [conflict] or [failed], the run comes
    to its end (it returns, the failure being reported through
    [core.setFailed]) and its whole trace contains no push and no
    hosting-platform call. *)
Theorem downstream_only_on_success (w : World) :
  res (run w) = Ok tt /\
  (forall e, In e (events (run w)) -> isDownstream e = true ->
     exists inputs branchName r,
       res (setup w) = Ok (inputs, branchName) /\
       res (cherryPickCommits (commits inputs) (final (setup w))) = Ok r /\
       status r = Success) /\
  (forall inputs branchName r,
     res (setup w) = Ok (inputs, branchName) ->
     res (cherryPickCommits (commits inputs) (final (setup w))) = Ok r ->
     status r <> Success ->
     noDownstream (events (run w)) = true).
Proof.
  assert (Stopped : forall inputs branchName r,
     res (setup w) = Ok (inputs, branchName) ->
     res (cherryPickCommits (commits inputs) (final (setup w))) = Ok r ->
     status r <> Success ->
     noDownstream (events (run w)) = true).
  { intros inputs branchName r S R N.
    rewrite (run_setup_ok _ S R). cbn [prepend events].
    rewrite !noDownstream_app, quiet_setup, quiet_cherryPickCommits.
    cbn [noDownstream forallb isDownstream negb andb].
    apply quiet_conclude. exact N. }
  split; [apply run_returns|]. split; [|exact Stopped].
  intros e I D.
  destruct (res (setup w)) as [[inputs branchName]|err] eqn:S.
  - destruct (cherryPickCommits_returns (commits inputs) (final (setup w))) as [r R].
    exists inputs, branchName, r. split; [reflexivity|]. split; [exact R|].
    destruct (status r) eqn:St; [reflexivity| |];
      (assert (Q : noDownstream (events (run w)) = true)
         by (apply (Stopped inputs branchName r); congruence);
       unfold noDownstream in Q; rewrite forallb_forall in Q;
       specialize (Q e I); rewrite D in Q; discriminate Q).
  - assert (Q : noDownstream (events (run w)) = true).
    { rewrite (run_setup_thrown _ S). cbn [prepend events].
      rewrite noDownstream_app, quiet_setup. apply quiet_handler. }
    unfold noDownstream in Q. rewrite forallb_forall in Q.
    specialize (Q e I). rewrite D in Q. discriminate Q.
Qed.

(** C6. In every run whose setup succeeds, the replay returns a result, and
    the trace of the run is the trace of the setup, then the trace of the
    replay, then at once the output [cherry-pick-status] with the status of
    the result and the output [branch-name] with the branch name, then the
    rest.  Neither the setup nor the replay pushes or calls the hosting
    platform, so every such step comes after the two outputs, whatever the
    status is. *)
Theorem outputs_follow_replay (w : World) (inputs : Inputs) (branchName : string) :
  res (setup w) = Ok (inputs, branchName) ->
  let replay := cherryPickCommits (commits inputs) (final (setup w)) in
  exists r rest,
    res replay = Ok r /\
    events (run w) =
      (events (setup w) ++ events replay ++
       ESetOutput "cherry-pick-status" (statusText (status r)) ::
       ESetOutput "branch-name" branchName :: rest)%list /\
    noDownstream (events (setup w) ++ events replay) = true.
Proof.
  intros S replay.
  destruct (cherryPickCommits_returns (commits inputs) (final (setup w))) as [r R].
  exists r. eexists. split; [exact R|]. split.
  - rewrite (run_setup_ok _ S R). cbn [prepend events app]. reflexivity.
  - rewrite noDownstream_app, quiet_setup. apply quiet_cherryPickCommits.
Qed.

End Run.

(* ================================================================= *)
(** ** Actions that leave the world alone, and what setup can throw *)

Section Setup.

Context {World : Type} {host : Host World}.

Lemma keeps_ret {A} (a : A) : Keeps (ret (World := World) a).
Proof. intros w; reflexivity. Qed.

Lemma keeps_throw {A} (e : JsError) : Keeps (@throw World A e).
Proof. intros w; reflexivity. Qed.

Lemma keeps_lift {A} (f : World -> Result A) : Keeps (lift f).
Proof. intros w; reflexivity. Qed.

Lemma keeps_observe {A} (f : World -> A) : Keeps (observe f).
Proof. intros w; reflexivity. Qed.

Lemma keeps_emit (e : Event) : Keeps (@emit World e).
Proof. intros w; reflexivity. Qed.

Lemma keeps_bind {A B} (m : M World A) (k : A -> M World B) :
  Keeps m -> (forall a, Keeps (k a)) -> Keeps (bind m k).
Proof.
  intros Hm Hk w. unfold bind. specialize (Hm w).
  destruct (res (m w)); cbn [final]; [|exact Hm].
  rewrite Hm. apply Hk.
Qed.

Lemma avoids_ret message {A} (a : A) : Avoids message (ret (World := World) a).
Proof. intros w; discriminate. Qed.

Lemma avoids_emit message (e : Event) : Avoids message (@emit World e).
Proof. intros w; discriminate. Qed.

Lemma avoids_observe message {A} (f : World -> A) : Avoids message (observe f).
Proof. intros w; discriminate. Qed.

Lemma avoids_execCommand message command args options :
  Avoids message (execCommand command args options).
Proof.
  intros w. unfold execCommand. destruct (execute command args options w). discriminate.
Qed.

Lemma avoids_throw message {A} (e : JsError) :
  e <> ErrorObj message -> Avoids message (@throw World A e).
Proof. intros N w H. apply N. cbn in H. congruence. Qed.

Lemma avoids_bind message {A B} (m : M World A) (k : A -> M World B) :
  Avoids message m -> (forall a, Avoids message (k a)) -> Avoids message (bind m k).
Proof.
  intros Hm Hk w. unfold bind. specialize (Hm w).
  destruct (res (m w)) eqn:E; cbn [res]; [apply Hk|].
  intros H. apply Hm. congruence.
Qed.

Lemma bind_ok_inv {A B} (m : M World A) (k : A -> M World B) (w : World) (b : B) :
  res (bind m k w) = Ok b ->
  exists a, res (m w) = Ok a /\ res (k a (final (m w))) = Ok b.
Proof.
  unfold bind. destruct (res (m w)) as [a|e]; cbn [res]; [eauto | discriminate].
Qed.

Lemma bind_ok {A B} (m : M World A) (k : A -> M World B) (w : World) (a : A) :
  res (m w) = Ok a ->
  bind m k w = prepend (events (m w)) (k a (final (m w))).
Proof. intros H. unfold bind, prepend. now rewrite H. Qed.

End Setup.

Ltac keeps :=
  repeat first
    [ apply keeps_ret
    | apply keeps_throw
    | apply keeps_lift
    | apply keeps_observe
    | apply keeps_emit
    | apply keeps_bind; [|intros ?]
    | match goal with
      | |- Keeps (if ?b then _ else _) => destruct b
      | |- Keeps (match ?x with _ => _ end) => destruct x
      end ].

Ltac avoids :=
  repeat first
    [ apply avoids_ret
    | apply avoids_emit
    | apply avoids_observe
    | apply avoids_execCommand
    | apply avoids_throw; cbn; discriminate
    | apply avoids_bind; [|intros ?]
    | match goal with
      | |- Avoids _ (if ?b then _ else _) => destruct b
      | |- Avoids _ (match ?x with _ => _ end) => destruct x
      end ].

(** Takes a successful sequence of steps apart, one [bind] at a time. *)
Ltac unbind H :=
  repeat (apply bind_ok_inv in H;
          let a := fresh "a" in
          let Ha := fresh "Ha" in
          destruct H as (a & Ha & H)).

Section SetupFacts.

Context {World : Type} {host : Host World}.

Lemma keeps_readInputs : Keeps readInputs.
Proof. unfold readInputs, input. keeps. Qed.

Lemma keeps_printHeader (inputs : Inputs) : Keeps (printHeader (World := World) inputs).
Proof. unfold printHeader, console_log. keeps. Qed.

Lemma keeps_chooseBranchName (inputs : Inputs) : Keeps (chooseBranchName inputs).
Proof. unfold chooseBranchName, generateBranchName. keeps. Qed.

(** The commits of the inputs object are the [commits] input, parsed. *)
Lemma readInputs_commits (w : World) (raw : string) (inputs : Inputs) :
  core_getInput "commits" true w = Ok raw ->
  res (readInputs w) = Ok inputs ->
  commits inputs = parseCommits raw.
Proof.
  intros G H. unfold readInputs in H.
  apply bind_ok_inv in H. destruct H as (a & Ha & H).
  cbn in Ha. rewrite G in Ha. injection Ha as <-.
  unbind H. cbn in H. injection H as <-. reflexivity.
Qed.

(** What a successful setup went through. *)
Lemma setup_ok_inv (w : World) (inputs : Inputs) (branchName : string) :
  res (setup w) = Ok (inputs, branchName) ->
  res (readInputs w) = Ok inputs /\
  Js.truthy (repository inputs) = true /\
  noCommitsSpecified (commits inputs) = false /\
  res (chooseBranchName inputs w) = Ok branchName.
Proof.
  intros H. unfold setup in H.
  apply bind_ok_inv in H. destruct H as (i & Hi & H).
  rewrite keeps_readInputs in H.
  destruct (Js.truthy (repository i)) eqn:T; [|discriminate H].
  destruct (noCommitsSpecified (commits i)) eqn:N; [discriminate H|].
  cbn [negb] in H.
  apply bind_ok_inv in H. destruct H as (? & _ & H). cbn [core_setSecret emit final] in H.
  apply bind_ok_inv in H. destruct H as (? & _ & H). rewrite keeps_printHeader in H.
  apply bind_ok_inv in H. destruct H as (b & Hb & H). rewrite keeps_chooseBranchName in H.
  unbind H. cbn in H. injection H as <- <-. auto.
Qed.

(** With inputs read and a repository named, setup throws
    "No commits specified" exactly when the condition of line 307 holds. *)
Lemma setup_rejects (w : World) (inputs : Inputs) :
  res (readInputs w) = Ok inputs ->
  repository inputs <> "" ->
  (res (setup w) = Thrown (ErrorObj "No commits specified") <->
   noCommitsSpecified (commits inputs) = true).
Proof.
  intros R T. apply truthy_true in T.
  unfold setup. erewrite bind_ok by exact R. rewrite keeps_readInputs, T.
  cbn [negb prepend res].
  destruct (noCommitsSpecified (commits inputs)); [split; reflexivity|].
  split; [|discriminate]. intros H. exfalso. revert H.
  match goal with |- res (?m w) = _ -> False => enough (A : Avoids "No commits specified" m) by apply A end.
  unfold printHeader, chooseBranchName, generateBranchName, configureGit, fetchBranch,
    createBranch, core_setSecret, core_info, console_log.
  avoids.
Qed.

End SetupFacts.

(* ================================================================= *)
(** ** Branch name and input validation *)

Section Naming.

Context {World : Type} {host : Host World}.

(** C7. A non-empty explicit branch name is returned as it is.  Otherwise,
    for every target branch and every commit list with a first commit, the
    name is "cherrypick/", the target branch with each "/" replaced by "-",
    "/", the first seven characters of the first commit, "-", and
    [Date.now()] in decimal; [generateBranchName] computes that for every
    non-empty commit list.  The branch a successful setup works on is the
    name chosen this way.  Choosing a name emits no event and leaves the
    world as it is. *)
Theorem branch_name (inputs : Inputs) (w : World) :
  (newBranch inputs <> "" ->
   chooseBranchName inputs w =
   {| res := Ok (newBranch inputs); events := []; final := w |}) /\
  (newBranch inputs = "" ->
   forall c rest, commits inputs = c :: rest ->
   chooseBranchName inputs w =
   {| res := Ok (synthesizedName (targetBranch inputs) c (Date_now w));
      events := []; final := w |}) /\
  (forall target c rest,
   generateBranchName target (c :: rest) w =
   {| res := Ok (synthesizedName target c (Date_now w)); events := []; final := w |}) /\
  (forall branchName,
   res (setup w) = Ok (inputs, branchName) ->
   res (chooseBranchName inputs w) = Ok branchName).
Proof.
  assert (G : forall target c rest,
             generateBranchName target (c :: rest) w =
             {| res := Ok (synthesizedName target c (Date_now w));
                events := []; final := w |}).
  { intros target c rest. unfold generateBranchName, synthesizedName.
    rewrite <- replaceAll_list, <- substring0_list. reflexivity. }
  repeat split.
  - intros N. apply truthy_true in N. unfold chooseBranchName. now rewrite N.
  - intros E c rest C. apply truthy_false in E. unfold chooseBranchName.
    rewrite E, C. apply G.
  - exact G.
  - intros branchName S. now apply setup_ok_inv in S.
Qed.

Lemma noCommitsSpecified_spec (l : list string) :
  noCommitsSpecified l = true <-> l = [] \/ l = [""].
Proof.
  unfold noCommitsSpecified. destruct l as [|c [|d l]]; cbn.
  - split; auto.
  - destruct c; cbn; split; intros H; auto; try discriminate.
    destruct H as [H|H]; discriminate.
  - split; [discriminate | intros [H|H]; discriminate].
Qed.

(** C10. Let the [commits] input be [raw], let the inputs be read and a
    repository be named.  The commits of the run are the entries of [raw]
    between commas (the entries hold no comma and, joined by commas, give
    [raw] back), each with the white space around it removed.  Setup
    throws "No commits specified" exactly when that list is empty or is
    the single empty entry; an input that splits into two or more entries
    is never rejected this way, whatever the entries are.  When setup
    succeeds, the replay runs over exactly these trimmed entries. *)
Theorem commits_validation (w : World) (raw : string) (inputs : Inputs) :
  core_getInput "commits" true w = Ok raw ->
  res (readInputs w) = Ok inputs ->
  repository inputs <> "" ->
  commits inputs = map Js.trim (Js.split "," raw) /\
  (Js.join "," (Js.split "," raw) = raw /\
   Forall (fun e => ~ In ","%char (list_ascii_of_string e)) (Js.split "," raw)) /\
  Forall2 trimOf (Js.split "," raw) (commits inputs) /\
  (res (setup w) = Thrown (ErrorObj "No commits specified") <->
   commits inputs = [] \/ commits inputs = [""]) /\
  (2 <= List.length (Js.split "," raw) ->
   res (setup w) <> Thrown (ErrorObj "No commits specified")) /\
  (forall inputs' branchName,
   res (setup w) = Ok (inputs', branchName) ->
   inputs' = inputs /\
   exists rest,
     events (run w) =
     (events (setup w) ++
      events (cherryPickCommits (map Js.trim (Js.split "," raw)) (final (setup w))) ++
      rest)%list).
Proof.
  intros G R T.
  pose proof (@readInputs_commits _ _ w raw inputs G R) as C. unfold parseCommits in C.
  pose proof (@setup_rejects _ _ w inputs R T) as V.
  split; [exact C|]. split; [apply split_join|]. split.
  { rewrite C. clear. induction (Js.split "," raw); constructor; auto using trim_spec. }
  split; [rewrite V; apply noCommitsSpecified_spec|].
  split.
  { intros L. rewrite V, noCommitsSpecified_spec, C.
    destruct (Js.split "," raw) as [|x [|y l]]; cbn in L; try lia.
    intros [H|H]; discriminate. }
  intros inputs' branchName S.
  assert (inputs' = inputs) as ->.
  { apply setup_ok_inv in S. destruct S as [S _]. congruence. }
  split; [reflexivity|].
  destruct (cherryPickCommits_returns (commits inputs) (final (setup w))) as [r Hr].
  rewrite (@run_setup_ok _ _ w inputs branchName r S Hr), <- C.
  cbn [prepend events]. eauto.
Qed.

End Naming.

(* ================================================================= *)
(** ** The review request *)

Section Composer.

Context {World : Type} {host : Host World}.

Lemma append_assoc (a b c : string) : (a ++ b) ++ c = a ++ b ++ c.
Proof. induction a as [|x a IH]; cbn; [reflexivity | now rewrite IH]. Qed.

Lemma append_empty (a : string) : a ++ "" = a.
Proof. induction a as [|x a IH]; cbn; [reflexivity | now rewrite IH]. Qed.

Lemma getCommitMessage_returns (c : string) (w : World) :
  exists m, res (getCommitMessage c w) = Ok m.
Proof.
  unfold getCommitMessage.
  erewrite bind_execCommand by apply execute_eta. cbn. eauto.
Qed.

Lemma subjects_length (cs : list string) (w : World) :
  List.length (subjects cs w) = List.length cs.
Proof.
  revert w; induction cs as [|c cs IH]; intros w; cbn [subjects]; [reflexivity|].
  destruct (getCommitMessage_returns c w) as [m ->]. cbn. now rewrite IH.
Qed.

Lemma bodyLoop_spec (applied : list string) :
  forall (body : string) (w : World),
    res (bodyLoop applied body w) =
    Ok (body ++ lines (map (fun p => commitLine (fst p) (snd p))
                         (combine applied (subjects applied w)))).
Proof.
  induction applied as [|c applied IH]; intros body w.
  - cbn. now rewrite append_empty.
  - cbn [bodyLoop subjects].
    destruct (getCommitMessage_returns c w) as [m Hm].
    erewrite bind_ok by exact Hm. rewrite Hm. cbn [prepend res].
    rewrite IH. cbn [combine map lines fold_right fst snd].
    rewrite append_assoc. unfold bodyLine, commitLine.
    now rewrite substring0_list.
Qed.

Lemma composeTitle_returns (inputs : Inputs) (w : World) :
  exists t, res (composeTitle inputs w) = Ok t.
Proof.
  unfold composeTitle. destruct (Js.truthy (prTitle inputs)); cbn [negb]; [cbn; eauto|].
  destruct (commits inputs) as [|c [|d l]]; try (cbn; eauto; fail).
  destruct (getCommitMessage_returns c w) as [m Hm].
  erewrite bind_ok by exact Hm. cbn. eauto.
Qed.

Lemma composeBody_returns (inputs : Inputs) (r : CherryPickResult) (w : World) :
  exists b, res (composeBody inputs r w) = Ok b.
Proof.
  unfold composeBody. destruct (Js.truthy (prBody inputs)); cbn [negb]; [cbn; eauto|].
  erewrite bind_ok by apply bodyLoop_spec. cbn. eauto.
Qed.

(** A successful replay applied exactly the commits of the inputs. *)
Lemma success_applied_all (cs : list string) (w : World) (r : CherryPickResult) :
  res (cherryPickCommits cs w) = Ok r -> status r = Success ->
  successfulCommits r = cs.
Proof.
  intros R S. destruct (loop_shape cs [] w) as (r' & done & rest & R' & C & A & _ & K).
  unfold cherryPickCommits in R. rewrite R in R'. injection R' as <-.
  rewrite S in K. destruct K as [-> _].
  rewrite app_nil_r in C. cbn in A. congruence.
Qed.

(** C8. For a successful result of replaying the commits of the inputs, and
    an octokit client that could be built, [createPullRequest] first
    composes the title, then the body, and sends exactly these in the
    creation request.  A non-empty provided title is used as it is;
    otherwise, with exactly one applied commit the title is
    "Cherry-pick: " and the subject of that commit, and with more than one
    it is "Cherry-pick N commits to " and the target branch, N being the
    number of applied commits.  The default body (no body provided) is the
    header, then one line per applied commit, in the order of
    [successfulCommits], one line for each occurrence, with the first seven
    characters of the commit and its subject, then the footer. *)
Theorem review_request_text (inputs : Inputs) (branchName : string)
    (r : CherryPickResult) (w0 w : World) :
  res (cherryPickCommits (commits inputs) w0) = Ok r ->
  status r = Success ->
  github_getOctokit (ghToken inputs) w = Ok tt ->
  let w1 := final (composeTitle inputs w) in
  let applied := successfulCommits r in
  exists title body rest,
    events (createPullRequest inputs branchName r w) =
      (events (composeTitle inputs w) ++ events (composeBody inputs r w1) ++
       EInfo "Creating pull request..." ::
       EPullsCreate {| pc_owner := nth_error (Js.split "/" (repository inputs)) 0;
                       pc_repo := nth_error (Js.split "/" (repository inputs)) 1;
                       pc_title := title; pc_body := body;
                       pc_head := branchName; pc_base := targetBranch inputs;
                       pc_draft := draft inputs |} :: rest)%list /\
    (prTitle inputs <> "" -> title = prTitle inputs) /\
    (prTitle inputs = "" -> forall c, applied = [c] ->
       exists subject, subjects [c] w = [subject] /\ title = "Cherry-pick: " ++ subject) /\
    (prTitle inputs = "" -> 1 < List.length applied ->
       title = "Cherry-pick " ++ NilZero.string_of_uint (Nat.to_uint (List.length applied)) ++
               " commits to " ++ targetBranch inputs) /\
    (prBody inputs = "" ->
       body = defaultBody inputs applied (subjects applied w1) /\
       List.length (subjects applied w1) = List.length applied).
Proof.
  intros R S O w1 applied.
  pose proof (success_applied_all _ _ R S) as A. fold applied in A.
  destruct (composeTitle_returns inputs w) as [title Ht].
  destruct (composeBody_returns inputs r w1) as [body Hb].
  exists title, body. eexists. split.
  { unfold createPullRequest.
    erewrite bind_ok by (cbn; exact O). cbn [lift events final].
    erewrite bind_ok by exact Ht. fold w1.
    erewrite bind_ok by exact Hb.
    unfold core_info at 1. rewrite !bind_emit.
    cbn [prepend events app]. reflexivity. }
  split.
  { intros N. apply truthy_true in N. unfold composeTitle in Ht.
    rewrite N in Ht. cbn in Ht. congruence. }
  split.
  { intros E c C. apply truthy_false in E. unfold composeTitle in Ht.
    rewrite E, <- A, C in Ht. cbn [negb] in Ht. cbn [subjects].
    destruct (getCommitMessage_returns c w) as [m Hm].
    erewrite bind_ok in Ht by exact Hm. cbn [prepend ret res] in Ht. rewrite Hm.
    exists m. split; [reflexivity | congruence]. }
  split.
  { intros E L. apply truthy_false in E. unfold composeTitle in Ht.
    rewrite E, <- A in Ht. cbn [negb] in Ht.
    destruct applied as [|c [|d l]]; cbn in L; try lia.
    cbn [ret res] in Ht. unfold Js.ofNat in Ht. congruence. }
  intros E. apply truthy_false in E. unfold composeBody in Hb.
  rewrite E in Hb. cbn [negb] in Hb.
  erewrite bind_ok in Hb by apply bodyLoop_spec. cbn [prepend ret res] in Hb.
  split; [|apply subjects_length].
  unfold defaultBody. fold applied in Hb. rewrite append_assoc in Hb. congruence.
Qed.

End Composer.

(* ================================================================= *)
(** ** The theorems at work on scripted scenarios *)

Section Scenarios.

Import Scripted.

(** Three clean commits are all applied, in order. *)
Lemma replay_all_clean_witness :
  cherryPickCommits ["abc1234"; "def5678"; "ghi9012"] (allClean "abc1234,def5678,ghi9012") =
  {| res := Ok {| status := Success;
                  successfulCommits := ["abc1234"; "def5678"; "ghi9012"];
                  failedCommit := None; error := None |};
     events := flat_map landed ["abc1234"; "def5678"; "ghi9012"];
     final := allClean "abc1234,def5678,ghi9012" |}.
Proof.
  apply replay_all_clean; [discriminate | repeat econstructor].
Defined.

(** Scenario B of the specification: the second of two commits conflicts. *)
Lemma replay_conflict_at_witness :
  let o := cherryPickCommits ["abc1234"; "def5678"] conflictOnSecond in
  res o = Ok {| status := Conflict; successfulCommits := ["abc1234"];
                failedCommit := Some "def5678";
                error := Some "Merge conflict while cherry-picking commit def5678" |} /\
  abortCount (events o) = 1 /\
  applyAttempts (events o) = ["abc1234"; "def5678"].
Proof.
  assert (P := @replay_conflict_at _ _ ["abc1234"] [] "def5678"
                 conflictOnSecond conflictOnSecond conflictOnSecond conflictOnSecond
                 _ _ ltac:(repeat econstructor) eq_refl ltac:(discriminate) eq_refl
                 (ex_intro _ "UU" (conj (or_introl eq_refl)
                    (ex_intro _ "" (ex_intro _ " file.txt" eq_refl))))).
  cbv zeta in P. destruct P as (R & _ & A & T & _).
  repeat split; assumption.
Defined.

(** Scenario D of the specification, and a finalize step that fails for
    another reason. *)
Lemma finalize_failure_witness :
  (exists r, res (cherryPickCommits ["abc1234"; "def5678"] alreadyApplied) = Ok r /\
             exists more, successfulCommits r = "abc1234" :: more) /\
  (exists t, applyAttempts (events (cherryPickCommits ["abc1234"; "def5678"] alreadyApplied)) =
             "abc1234" :: "def5678" :: t) /\
  res (cherryPickCommits ["abc1234"; "def5678"] commitBroken) =
  Ok {| status := Failed; successfulCommits := [];
        failedCommit := Some "abc1234";
        error := Some "Failed to commit cherry-pick: fatal: unable to write new index file" |}.
Proof.
  assert (P := @finalize_failure _ _ [] ["def5678"] "abc1234"
                 alreadyApplied alreadyApplied alreadyApplied alreadyApplied
                 _ _ ltac:(constructor) eq_refl eq_refl eq_refl ltac:(discriminate)).
  assert (Q := @finalize_failure _ _ [] ["def5678"] "abc1234"
                 commitBroken commitBroken commitBroken commitBroken
                 _ _ ltac:(constructor) eq_refl eq_refl eq_refl ltac:(discriminate)).
  cbv zeta in P, Q.
  assert (Said : contains "On branch release/1.0: nothing to commit, working tree clean"
                   "nothing to commit")
    by (exists "On branch release/1.0: ", ", working tree clean"; reflexivity).
  assert (Silent : ~ contains "" "nothing to commit")
    by (apply includes_not; reflexivity).
  destruct P as [P _]. destruct (P Said) as (_ & (r & more & R & A) & T).
  destruct Q as [_ Q]. destruct (Q Silent) as (F & _).
  split; [exists r; split; [exact R | exists more; exact A]|].
  split; [exact (T "def5678" [] eq_refl) | exact F].
Defined.

(** A conflict stops the run before anything is pushed. *)
Lemma downstream_only_on_success_witness :
  res (run conflictOnSecond) = Ok tt /\
  noDownstream (events (run conflictOnSecond)) = true.
Proof.
  destruct (downstream_only_on_success conflictOnSecond) as (R & _ & Q).
  split; [exact R|].
  eapply Q; [reflexivity | reflexivity | discriminate].
Defined.

(** The outputs of the conflict scenario come right after its replay. *)
Lemma outputs_follow_replay_witness :
  exists r rest,
    res (cherryPickCommits ["abc1234"; "def5678"] conflictOnSecond) = Ok r /\
    events (run conflictOnSecond) =
      (events (setup conflictOnSecond) ++
       events (cherryPickCommits ["abc1234"; "def5678"] conflictOnSecond) ++
       ESetOutput "cherry-pick-status" (statusText (status r)) ::
       ESetOutput "branch-name" "cherrypick/release-1.0/abc1234-1700000000000" :: rest)%list.
Proof.
  assert (S : res (setup conflictOnSecond) =
              Ok (inputsFor ["abc1234"; "def5678"],
                  "cherrypick/release-1.0/abc1234-1700000000000"))
    by (vm_compute; reflexivity).
  assert (W : final (setup conflictOnSecond) = conflictOnSecond)
    by (vm_compute; reflexivity).
  destruct (outputs_follow_replay _ S) as (r & rest & R & E & _).
  rewrite W in R, E.
  exists r, rest. split; [exact R | exact E].
Defined.

(** Without an explicit name the branch is named after the target, the
    first commit and the clock. *)
Lemma branch_name_witness :
  res (chooseBranchName (inputsFor ["abc1234567890"; "def5678"]) (allClean "")) =
  Ok "cherrypick/release-1.0/abc1234-1700000000000".
Proof.
  destruct (branch_name (inputsFor ["abc1234567890"; "def5678"]) (allClean ""))
    as (_ & G & _).
  rewrite (G eq_refl _ _ eq_refl). reflexivity.
Defined.

(** One applied commit: the title carries its subject, the body one line. *)
Lemma review_request_text_witness :
  exists rest,
    events (createPullRequest (inputsFor ["abc1234"]) "topic"
              {| status := Success; successfulCommits := ["abc1234"];
                 failedCommit := None; error := None |} withSubjects) =
    (events (composeTitle (inputsFor ["abc1234"]) withSubjects) ++
     events (composeBody (inputsFor ["abc1234"])
               {| status := Success; successfulCommits := ["abc1234"];
                  failedCommit := None; error := None |} withSubjects) ++
     EInfo "Creating pull request..." ::
     EPullsCreate {| pc_owner := Some "acme"; pc_repo := Some "widgets";
                     pc_title := "Cherry-pick: Fix the widget";
                     pc_body := defaultBody (inputsFor ["abc1234"]) ["abc1234"]
                                  ["Fix the widget"];
                     pc_head := "topic"; pc_base := "release/1.0";
                     pc_draft := false |} :: rest)%list.
Proof.
  assert (R : res (cherryPickCommits (commits (inputsFor ["abc1234"])) withSubjects) =
              Ok {| status := Success; successfulCommits := ["abc1234"];
                    failedCommit := None; error := None |})
    by reflexivity.
  destruct (@review_request_text _ _ (inputsFor ["abc1234"]) "topic" _
              withSubjects withSubjects R eq_refl eq_refl)
    as (title & body & rest & E & _ & T & _ & B).
  destruct (T eq_refl "abc1234" eq_refl) as (subject & S & ->).
  injection S as <-. destruct (B eq_refl) as [-> _].
  exists rest. exact E.
Defined.

(** "UU" inside a file path is taken for a conflict marker. *)
Lemma apply_failure_classified_witness :
  exists result,
    res (cherryPickCommits ["abc1234"] markerInPath) = Ok result /\
    status result = Conflict.
Proof.
  destruct (@apply_failure_classified _ _ [] [] "abc1234"
              markerInPath markerInPath markerInPath markerInPath _ _
              ltac:(constructor) eq_refl ltac:(discriminate) eq_refl)
    as (result & R & _ & _ & C & _).
  exists result. split; [exact R|].
  apply C. exists "UU". split; [left; reflexivity|].
  exists "M  docs/", "ID.md". reflexivity.
Defined.

(** The input ",," has three empty entries and passes the validation. *)
Lemma commits_validation_witness :
  commits (inputsFor [""; ""; ""]) = [""; ""; ""] /\
  res (setup (allClean ",,")) <> Thrown (ErrorObj "No commits specified") /\
  exists rest,
    events (run (allClean ",,")) =
    (events (setup (allClean ",,")) ++
     events (cherryPickCommits [""; ""; ""] (allClean ",,")) ++ rest)%list.
Proof.
  assert (G : core_getInput "commits" true (allClean ",,") = Ok ",,")
    by (vm_compute; reflexivity).
  assert (R : res (readInputs (allClean ",,")) = Ok (inputsFor [""; ""; ""]))
    by (vm_compute; reflexivity).
  assert (S : res (setup (allClean ",,")) =
              Ok (inputsFor [""; ""; ""], "cherrypick/release-1.0/-1700000000000"))
    by (vm_compute; reflexivity).
  assert (W : final (setup (allClean ",,")) = allClean ",,")
    by (vm_compute; reflexivity).
  destruct (@commits_validation _ _ (allClean ",,") ",," (inputsFor [""; ""; ""])
              G R ltac:(discriminate))
    as (C & _ & _ & _ & L & K).
  split; [exact C|]. split; [apply L; cbn; lia|].
  destruct (K _ _ S) as (_ & rest & E).
  rewrite W in E. exists rest. exact E.
Defined.

End Scenarios.

(* ================================================================= *)
(** ** Captured process output *)

Unset Implicit Arguments.

Lemma length_append (a b : string) :
  String.length (a ++ b) = String.length a + String.length b.
Proof. induction a as [|x a IH]; cbn; [reflexivity | now rewrite IH]. Qed.

Lemma length_substring0 (n : nat) (s : string) :
  String.length (substring 0 n s) = Nat.min n (String.length s).
Proof.
  revert s; induction n as [|n IH]; intros [|x s]; cbn; try reflexivity.
  now rewrite IH.
Qed.

Lemma substring0_append (n : nat) (a b : string) :
  n <= String.length a -> substring 0 n (a ++ b) = substring 0 n a.
Proof.
  revert a; induction n as [|n IH]; intros [|x a] L; cbn in *; try reflexivity; try lia.
  - destruct b; reflexivity.
  - rewrite IH by lia. reflexivity.
Qed.

Lemma listener_truncated (maxBuffer : N) (chunks : list string) (out : string) :
  fold_left (listener maxBuffer) chunks (out, true) = (out, true).
Proof. induction chunks as [|d chunks IH]; cbn; [reflexivity | exact IH]. Qed.

Lemma listener_fold (maxBuffer : N) (chunks : list string) :
  forall out : string,
    (N.of_nat (String.length out) <= maxBuffer)%N ->
    fst (fold_left (listener maxBuffer) chunks (out, false)) =
    if (maxBuffer <? N.of_nat (String.length (out ++ lines chunks)))%N
    then substring 0 (N.to_nat maxBuffer) (out ++ lines chunks) ++ truncationMarker
    else out ++ lines chunks.
Proof.
  induction chunks as [|d chunks IH]; intros out L.
  - cbn [fold_left fst]. change (lines []) with "". rewrite append_empty.
    destruct (N.ltb_spec maxBuffer (N.of_nat (String.length out))); [lia | reflexivity].
  - change (lines (d :: chunks)) with (d ++ lines chunks).
    replace (out ++ d ++ lines chunks) with ((out ++ d) ++ lines chunks)
      by apply append_assoc.
    cbn [fold_left listener].
    destruct (N.ltb_spec maxBuffer (N.of_nat (String.length (out ++ d)))) as [T|T].
    + rewrite listener_truncated. cbn [fst].
      destruct (N.ltb_spec maxBuffer
                  (N.of_nat (String.length ((out ++ d) ++ lines chunks)))) as [U|U].
      * rewrite (substring0_append (N.to_nat maxBuffer) (out ++ d) (lines chunks)) by lia.
        reflexivity.
      * rewrite length_append in U. lia.
    + apply IH. exact T.
Qed.

Lemma capture_eq (maxBuffer : N) (chunks : list string) :
  capture maxBuffer chunks = captured maxBuffer chunks.
Proof.
  unfold capture, captured. rewrite listener_fold by (cbn; lia).
  cbn [append]. now rewrite <- substring0_list.
Qed.

Lemma lines_app (a b : list string) : lines (a ++ b) = lines a ++ lines b.
Proof.
  induction a as [|x a IH]; [reflexivity|].
  cbn [app]. change (lines (x :: a ++ b)) with (x ++ lines (a ++ b)).
  change (lines (x :: a)) with (x ++ lines a). now rewrite IH, append_assoc.
Qed.

Lemma captured_length (maxBuffer : N) (chunks : list string) :
  (N.of_nat (String.length (captured maxBuffer chunks)) <= maxBuffer + 23)%N.
Proof.
  unfold captured.
  destruct (N.ltb_spec maxBuffer (N.of_nat (String.length (lines chunks)))) as [T|T].
  - rewrite <- substring0_list. unfold Js.substring0.
    rewrite length_append, length_substring0.
    change (String.length truncationMarker) with 23. lia.
  - lia.
Qed.

(** X1. A stream listener of [execCommand] keeps everything while the
    chunks received so far fit the buffer; once they exceed it, it keeps
    their first [maxBuffer] characters followed by the truncation marker.
    So the captured text depends on the chunks only through their
    concatenation, it is never more than 23 characters longer than the
    buffer, and once the buffer is exceeded whatever arrives later changes
    nothing. *)
Theorem capture_spec (maxBuffer : N) (chunks : list string) :
  capture maxBuffer chunks = captured maxBuffer chunks /\
  (N.of_nat (String.length (capture maxBuffer chunks)) <= maxBuffer + 23)%N /\
  (forall more,
     (maxBuffer < N.of_nat (String.length (lines chunks)))%N ->
     capture maxBuffer (chunks ++ more) = capture maxBuffer chunks).
Proof.
  split; [apply capture_eq|]. split; [rewrite capture_eq; apply captured_length|].
  intros more T. rewrite !capture_eq. unfold captured. rewrite lines_app.
  destruct (N.ltb_spec maxBuffer (N.of_nat (String.length (lines chunks))));
    [|lia].
  destruct (N.ltb_spec maxBuffer
              (N.of_nat (String.length (lines chunks ++ lines more)))) as [U|U];
    [|rewrite length_append in U; lia].
  rewrite <- !substring0_list. unfold Js.substring0.
  rewrite substring0_append by lia. reflexivity.
Qed.

Lemma trimOf_length (s t : string) :
  trimOf s t -> String.length t <= String.length s.
Proof.
  intros (l & r & -> & _). rewrite !length_append. lia.
Qed.

Section Captured.

Context {World : Type} {host : Host World}.

(** X2. Whatever the process writes, [execCommand] resolves (it never
    throws) after exactly one spawn, with the exit code of the process,
    and each of [stdout] and [stderr] is the captured stream without the
    white space around it: it neither starts nor ends with white space and
    is at most 23 characters longer than the buffer (10 MiB unless
    [maxBuffer] is given). *)
Theorem execCommand_output (command : string) (args : list string)
    (options : ExecOptions) (w : World) :
  let spawned :=
    exec_exec command args (nullish (silent options) false)
      (nullish (ignoreReturnCode options) true) w in
  exists r,
    execCommand command args options w =
      {| res := Ok r; events := [EExec command args]; final := snd spawned |} /\
    exitCode r = code (fst spawned) /\
    trimOf (captured (bufferOf options) (stdoutChunks (fst spawned))) (stdout r) /\
    trimOf (captured (bufferOf options) (stderrChunks (fst spawned))) (stderr r) /\
    (N.of_nat (String.length (stdout r)) <= bufferOf options + 23)%N /\
    (N.of_nat (String.length (stderr r)) <= bufferOf options + 23)%N.
Proof.
  intros spawned. unfold execCommand, execute. fold spawned.
  destruct spawned as [p w'] eqn:E. cbn [fst snd].
  eexists. split; [reflexivity|]. cbn [exitCode stdout stderr].
  change (nullish (maxBuffer options) (10 * 1024 * 1024)%N) with (bufferOf options).
  rewrite !capture_eq.
  pose proof (trim_spec (captured (bufferOf options) (stdoutChunks p))) as To.
  pose proof (trim_spec (captured (bufferOf options) (stderrChunks p))) as Te.
  pose proof (captured_length (bufferOf options) (stdoutChunks p)).
  pose proof (captured_length (bufferOf options) (stderrChunks p)).
  pose proof (trimOf_length _ _ To). pose proof (trimOf_length _ _ Te).
  repeat split; try assumption; lia.
Qed.

End Captured.

(* ================================================================= *)
(** ** More on the replay engine *)

Section EngineMore.

Context {World : Type} {host : Host World}.

(** Induction over the runs of the replay loop: a property of its
    outcomes holds for all of them when it holds at the end of the list
    and is kept by each of the four ways an iteration can go. *)
Lemma loop_outcome_ind
    (P : list string -> list string -> World -> Outcome World CherryPickResult -> Prop) :
  (forall acc w,
     P [] acc w {| res := Ok {| status := Success; successfulCommits := acc;
                                failedCommit := None; error := None |};
                   events := []; final := w |}) ->
  (forall c rest acc w r1 w1 r2 w2,
     execute "git" (applyArgs c) ignoringReturnCode w = (r1, w1) ->
     exitCode r1 = 0%Z ->
     execute "git" (finalizeArgs c) noOptions w1 = (r2, w2) ->
     tolerated r2 ->
     P rest (acc ++ [c])%list w2 (cherryPickLoop rest (acc ++ [c])%list w2) ->
     P (c :: rest) acc w
       (prepend (landed c) (cherryPickLoop rest (acc ++ [c])%list w2))) ->
  (forall c rest acc w r1 w1 r2 w2,
     execute "git" (applyArgs c) ignoringReturnCode w = (r1, w1) ->
     exitCode r1 = 0%Z ->
     execute "git" (finalizeArgs c) noOptions w1 = (r2, w2) ->
     exitCode r2 <> 0%Z ->
     ~ contains (stdout r2) "nothing to commit" ->
     P (c :: rest) acc w
       {| res := Ok {| status := Failed; successfulCommits := acc;
                       failedCommit := Some c;
                       error := Some ("Failed to commit cherry-pick: " ++ stderr r2) |};
          events := [EInfo ("Cherry-picking commit: " ++ c);
                     EExec "git" (applyArgs c); EExec "git" (finalizeArgs c)];
          final := w2 |}) ->
  (forall c rest acc w r1 w1 st w2,
     execute "git" (applyArgs c) ignoringReturnCode w = (r1, w1) ->
     exitCode r1 <> 0%Z ->
     execute "git" statusArgs noOptions w1 = (st, w2) ->
     conflictMarked (stdout st) ->
     P (c :: rest) acc w
       {| res := Ok {| status := Conflict; successfulCommits := acc;
                       failedCommit := Some c;
                       error := Some ("Merge conflict while cherry-picking commit " ++ c) |};
          events := [EInfo ("Cherry-picking commit: " ++ c);
                     EExec "git" (applyArgs c); EExec "git" statusArgs;
                     EWarning ("Conflict detected while cherry-picking " ++ c);
                     EExec "git" abortArgs];
          final := snd (execute "git" abortArgs ignoringReturnCode w2) |}) ->
  (forall c rest acc w r1 w1 st w2,
     execute "git" (applyArgs c) ignoringReturnCode w = (r1, w1) ->
     exitCode r1 <> 0%Z ->
     execute "git" statusArgs noOptions w1 = (st, w2) ->
     ~ conflictMarked (stdout st) ->
     P (c :: rest) acc w
       {| res := Ok {| status := Failed; successfulCommits := acc;
                       failedCommit := Some c;
                       error := Some (Js.or (stderr r1) (stdout r1)) |};
          events := [EInfo ("Cherry-picking commit: " ++ c);
                     EExec "git" (applyArgs c); EExec "git" statusArgs];
          final := w2 |}) ->
  forall remaining acc w, P remaining acc w (cherryPickLoop remaining acc w).
Proof.
  intros Hend Hland Hfin Hconf Hfail.
  induction remaining as [|c rest IH]; intros acc w; [apply Hend|].
  destruct (execute "git" (applyArgs c) ignoringReturnCode w) as [r1 w1] eqn:H1.
  destruct (Z.eq_dec (exitCode r1) 0) as [E1|E1].
  - destruct (execute "git" (finalizeArgs c) noOptions w1) as [r2 w2] eqn:H2.
    destruct (Z.eq_dec (exitCode r2) 0) as [E2|E2].
    + erewrite step_landed by (try eassumption; left; exact E2).
      eapply Hland; try eassumption; [left; exact E2 | apply IH].
    + destruct (Js.includes (stdout r2) "nothing to commit") eqn:N2.
      * apply includes_app in N2.
        erewrite step_landed by (try eassumption; right; exact N2).
        eapply Hland; try eassumption; [right; exact N2 | apply IH].
      * erewrite step_finalize_failed by eassumption.
        eapply Hfin; try eassumption. now apply includes_not.
  - destruct (execute "git" statusArgs noOptions w1) as [st w2] eqn:H2.
    destruct (hasConflict (stdout st)) eqn:C2.
    + erewrite step_conflict by eassumption.
      eapply Hconf; try eassumption. now apply hasConflict_spec.
    + erewrite step_apply_failed by eassumption.
      eapply Hfail; try eassumption. now apply hasConflict_not.
Qed.


Lemma statusChecks_app (a b : list Event) :
  statusChecks (a ++ b) = statusChecks a + statusChecks b.
Proof. unfold statusChecks. now rewrite filter_app, length_app. Qed.

(** X4. Whatever git answers, [git cherry-pick --abort] is run once when the
    result is a conflict and never otherwise, and [git status --porcelain]
    is consulted at most once in a replay: never when the replay succeeds,
    exactly once when it ends in a conflict. *)
Theorem abort_only_on_conflict (commits : list string) (w : World) :
  exists r,
    res (cherryPickCommits commits w) = Ok r /\
    abortCount (events (cherryPickCommits commits w)) =
      match status r with Conflict => 1 | _ => 0 end /\
    statusChecks (events (cherryPickCommits commits w)) <= 1 /\
    match status r with
    | Success => statusChecks (events (cherryPickCommits commits w)) = 0
    | Conflict => statusChecks (events (cherryPickCommits commits w)) = 1
    | Failed => True
    end.
Proof.
  unfold cherryPickCommits. generalize (@nil string) as acc.
  intros acc. revert commits acc w.
  apply (loop_outcome_ind
           (fun _ _ _ o =>
              exists r, res o = Ok r /\
                abortCount (events o) = match status r with Conflict => 1 | _ => 0 end /\
                statusChecks (events o) <= 1 /\
                match status r with
                | Success => statusChecks (events o) = 0
                | Conflict => statusChecks (events o) = 1
                | Failed => True
                end)).
  - intros acc w. eexists. split; [reflexivity|]. cbn. auto.
  - intros c rest acc w r1 w1 r2 w2 _ _ _ _ (r & R & A & S & K). exists r.
    cbn [prepend res events]. rewrite abortCount_app, statusChecks_app.
    change (abortCount (landed c)) with 0. change (statusChecks (landed c)) with 0.
    auto.
  - intros. eexists. split; [reflexivity|]. cbn. auto.
  - intros. eexists. split; [reflexivity|]. cbn. auto.
  - intros. eexists. split; [reflexivity|]. cbn. auto.
Qed.

Lemma finalizeMessages_app (a b : list Event) :
  finalizeMessages (a ++ b) = (finalizeMessages a ++ finalizeMessages b)%list.
Proof. apply flat_map_app. Qed.

(** X5. Whatever git answers, the commits the replay records on the branch
    are, in order, one per applied commit, each with the message
    "Cherry-pick: " followed by the commit it replays (not the message of
    the original commit).  Beyond those, [git commit] is attempted at most
    once more, for the failed commit of a [failed] result; in a [success]
    or a [conflict] nothing else is committed. *)
Theorem commits_recorded (commits : list string) (w : World) :
  exists r extra,
    res (cherryPickCommits commits w) = Ok r /\
    finalizeMessages (events (cherryPickCommits commits w)) =
      (map (append "Cherry-pick: ") (successfulCommits r) ++ extra)%list /\
    match status r with
    | Success | Conflict => extra = []
    | Failed =>
        extra = [] \/
        exists c, failedCommit r = Some c /\ extra = ["Cherry-pick: " ++ c]
    end.
Proof.
  pose (P := fun (_ acc : list string) (_ : World)
                 (o : Outcome World CherryPickResult) =>
                exists r done extra,
                  res o = Ok r /\ successfulCommits r = (acc ++ done)%list /\
                  finalizeMessages (events o) =
                    (map (append "Cherry-pick: ") done ++ extra)%list /\
                  match status r with
                  | Success | Conflict => extra = []
                  | Failed =>
                      extra = [] \/
                      exists c, failedCommit r = Some c /\ extra = ["Cherry-pick: " ++ c]
                  end).
  enough (G : forall remaining acc w, P remaining acc w (cherryPickLoop remaining acc w)).
  { destruct (G commits [] w) as (r & done & extra & R & A & F & K).
    exists r, extra. unfold cherryPickCommits. cbn in A. rewrite A. auto. }
  clear commits w. apply (loop_outcome_ind P); unfold P.
  - intros acc w. eexists _, [], []. split; [reflexivity|].
    cbn. rewrite app_nil_r. auto.
  - intros c rest acc w r1 w1 r2 w2 _ _ _ _ (r & done & extra & R & A & F & K).
    exists r, (c :: done), extra. cbn [prepend res events].
    rewrite finalizeMessages_app, F, A, <- app_assoc.
    repeat split; auto.
  - intros. eexists _, [], _. split; [reflexivity|].
    cbn. rewrite app_nil_r. split; [reflexivity|]. split; [reflexivity|].
    right. eauto.
  - intros. eexists _, [], []. split; [reflexivity|].
    cbn. rewrite app_nil_r. auto.
  - intros. eexists _, [], []. split; [reflexivity|].
    cbn. rewrite app_nil_r. auto.
Qed.

End EngineMore.

(* ================================================================= *)
(** ** Actions without events of some kind *)

Section Without.

Context {World : Type} {host : Host World}.

Variable P : Event -> bool.

Lemma without_ret {A} (a : A) : Without P (ret (World := World) a).
Proof. intros w; reflexivity. Qed.

Lemma without_throw {A} (e : JsError) : Without P (@throw World A e).
Proof. intros w; reflexivity. Qed.

Lemma without_lift {A} (f : World -> Result A) : Without P (lift f).
Proof. intros w; reflexivity. Qed.

Lemma without_observe {A} (f : World -> A) : Without P (observe f).
Proof. intros w; reflexivity. Qed.

Lemma without_request {A} (f : World -> Result A * World) : Without P (request f).
Proof. intros w. unfold request. destruct (f w). reflexivity. Qed.

Lemma without_emit (e : Event) : P e = false -> Without P (@emit World e).
Proof. intros H w. cbn. now rewrite H. Qed.

Lemma without_execCommand command args options :
  P (EExec command args) = false -> Without P (execCommand command args options).
Proof.
  intros H w. unfold execCommand.
  destruct (execute command args options w). cbn. now rewrite H.
Qed.

Lemma without_bind {A B} (m : M World A) (k : A -> M World B) :
  Without P m -> (forall a, Without P (k a)) -> Without P (bind m k).
Proof.
  intros Hm Hk w. unfold bind. specialize (Hm w).
  destruct (res (m w)); cbn [events]; [|exact Hm].
  rewrite forallb_app, Hm. apply Hk.
Qed.

Lemma without_tryCatch {A} (m : M World A) (h : JsError -> M World A) :
  Without P m -> (forall e, Without P (h e)) -> Without P (tryCatch m h).
Proof.
  intros Hm Hh w. unfold tryCatch. specialize (Hm w).
  destruct (res (m w)); cbn [events]; [exact Hm|].
  rewrite forallb_app, Hm. apply Hh.
Qed.

(** A projection of the trace that only looks at events satisfying [P]
    finds nothing in an action without them. *)
Lemma without_flat_map {A B} (f : Event -> list B) (m : M World A) (w : World) :
  Without P m -> (forall e, P e = false -> f e = []) ->
  flat_map f (events (m w)) = [].
Proof.
  intros H F. specialize (H w). induction (events (m w)) as [|e evs IH]; [reflexivity|].
  cbn in *. apply andb_true_iff in H. destruct H as [He Hevs].
  rewrite F by (now destruct (P e)). now apply IH.
Qed.

End Without.

Ltac without :=
  repeat first
    [ apply without_ret
    | apply without_throw
    | apply without_lift
    | apply without_observe
    | apply without_request
    | apply without_emit; reflexivity
    | apply without_execCommand; reflexivity
    | apply without_bind; [|intros ?]
    | match goal with
      | |- Without _ (if ?b then _ else _) => destruct b
      | |- Without _ (match ?x with _ => _ end) => destruct x
      | |- Without _ (let '(_, _) := ?x in _) => destruct x
      end ].

Section Plain.

Context {World : Type} {host : Host World}.

Lemma plain_setup : Without isReportOrApply setup.
Proof.
  unfold setup, readInputs, input, printHeader, chooseBranchName, generateBranchName,
    configureGit, fetchBranch, createBranch, core_setSecret, core_info, console_log.
  without.
Qed.

Lemma plain_printSummary inputs branchName r prUrl prNumber :
  Without isReportOrApply (printSummary (World := World) inputs branchName r prUrl prNumber).
Proof. unfold printSummary, whenTruthy, console_log. without. Qed.

Lemma plain_pushBranch branchName : Without isReportOrApply (pushBranch branchName).
Proof. unfold pushBranch, core_info. without. Qed.

Lemma plain_bodyLoop (applied : list string) (body : string) :
  Without isReportOrApply (bodyLoop applied body).
Proof.
  revert body; induction applied as [|c applied IH]; intros body;
    cbn [bodyLoop]; unfold getCommitMessage; without.
  apply IH.
Qed.

Lemma plain_createPullRequest inputs branchName r :
  Without isReportOrApply (createPullRequest inputs branchName r).
Proof.
  unfold createPullRequest, composeTitle, composeBody, getCommitMessage, core_info.
  without; apply plain_bodyLoop.
Qed.

Lemma unreported_cherryPickLoop (remaining acc : list string) :
  Without isReport (cherryPickLoop remaining acc).
Proof.
  revert acc; induction remaining as [|c remaining IH]; intros acc;
    cbn [cherryPickLoop]; unfold core_info, core_warning; without.
  apply IH.
Qed.

End Plain.

(* ================================================================= *)
(** ** Before the replay: validation and branch preparation *)

Section Preparation.

Context {World : Type} {host : Host World}.

Lemma without_all_nil {A} (m : M World A) (w : World) :
  Without (fun _ => true) m -> events (m w) = [].
Proof.
  intros H. specialize (H w). destruct (events (m w)); [reflexivity | discriminate H].
Qed.

Lemma mute_readInputs (w : World) : events (readInputs w) = [].
Proof.
  apply without_all_nil. unfold readInputs, input. without.
Qed.

Lemma printHeader_returns (inputs : Inputs) (w : World) :
  res (printHeader inputs w) = Ok tt /\ final (printHeader inputs w) = w.
Proof. split; reflexivity. Qed.

Lemma chooseBranchName_validated (inputs : Inputs) (w : World) :
  noCommitsSpecified (commits inputs) = false ->
  exists b, chooseBranchName inputs w = {| res := Ok b; events := []; final := w |}.
Proof.
  intros N. unfold chooseBranchName.
  destruct (Js.truthy (newBranch inputs)); [eexists; reflexivity|].
  destruct (commits inputs) as [|c rest]; [discriminate N|].
  eexists; reflexivity.
Qed.

Lemma setup_validated (w : World) (inputs : Inputs) :
  res (readInputs w) = Ok inputs ->
  repository inputs <> "" ->
  noCommitsSpecified (commits inputs) = false ->
  exists b,
    chooseBranchName inputs w = {| res := Ok b; events := []; final := w |} /\
    setup w =
    prepend (preamble inputs b w)
      ((configureGit (authorName inputs) (authorEmail inputs) ;;;
        fetchBranch (targetBranch inputs) ;;;
        createBranch b (targetBranch inputs) ;;;
        ret (inputs, b)) w).
Proof.
  intros R T N. apply truthy_true in T.
  destruct (chooseBranchName_validated inputs w N) as [b B].
  exists b. split; [exact B|].
  unfold setup. erewrite bind_ok by exact R.
  rewrite keeps_readInputs, mute_readInputs, T, N. cbn [negb].
  unfold core_setSecret. rewrite bind_emit.
  erewrite bind_ok by apply printHeader_returns. cbn beta.
  rewrite (proj2 (printHeader_returns inputs w)).
  erewrite bind_ok by (rewrite B; reflexivity). cbn beta.
  rewrite B. cbn [events final]. unfold core_info at 1. rewrite bind_emit.
  rewrite !prepend_prepend. reflexivity.
Qed.

Lemma bind_assoc {A B C} (m : M World A) (k : A -> M World B) (k' : B -> M World C)
    (w : World) :
  bind (bind m k) k' w = bind m (fun x => bind (k x) k') w.
Proof.
  unfold bind. destruct (res (m w)) as [a|e]; cbn [res events final]; [|reflexivity].
  destruct (res (k a (final (m w)))); cbn [res events final];
    [now rewrite app_assoc | reflexivity].
Qed.


(** X6. A run whose inputs cannot be read, that names no repository, or
    whose commit list is empty or a single empty entry, does nothing but
    report the failure: its whole trace is one [core.setFailed] with the
    message of the exception, no secret is registered, no git command is
    run and the world is left as it was.  The repository is checked before
    the commits. *)
Theorem validation_failure_is_silent (w : World) :
  (forall e, res (readInputs w) = Thrown e ->
     run w = {| res := Ok tt; events := [ESetFailed (messageOf e)]; final := w |}) /\
  (forall inputs, res (readInputs w) = Ok inputs -> repository inputs = "" ->
     run w = {| res := Ok tt;
                events := [ESetFailed "Repository not specified and GITHUB_REPOSITORY not set"];
                final := w |}) /\
  (forall inputs, res (readInputs w) = Ok inputs -> repository inputs <> "" ->
     commits inputs = [] \/ commits inputs = [""] ->
     run w = {| res := Ok tt; events := [ESetFailed "No commits specified"];
                final := w |}).
Proof.
  assert (Stop : forall e, setup w = {| res := Thrown e; events := []; final := w |} ->
                 run w = {| res := Ok tt; events := [ESetFailed (messageOf e)];
                            final := w |}).
  { intros e S. rewrite (@run_setup_thrown _ _ w e) by (rewrite S; reflexivity).
    rewrite S. destruct e; reflexivity. }
  split; [|split].
  - intros e R. apply Stop. unfold setup, bind. rewrite R.
    now rewrite mute_readInputs, keeps_readInputs.
  - intros inputs R T. apply truthy_false in T. apply Stop with (e := ErrorObj _).
    unfold setup. erewrite bind_ok by exact R.
    now rewrite mute_readInputs, keeps_readInputs, T.
  - intros inputs R T N. apply truthy_true in T. apply noCommitsSpecified_spec in N.
    apply Stop with (e := ErrorObj _).
    unfold setup. erewrite bind_ok by exact R.
    now rewrite mute_readInputs, keeps_readInputs, T, N.
Qed.

(** X7. Once the inputs are read and pass validation, the first thing a run
    does is to register the token as a secret: nothing is printed, logged
    or executed before. *)
Theorem secret_first (w : World) (inputs : Inputs) :
  res (readInputs w) = Ok inputs ->
  repository inputs <> "" ->
  noCommitsSpecified (commits inputs) = false ->
  exists rest, events (run w) = ESetSecret (ghToken inputs) :: rest.
Proof.
  intros R T N. destruct (setup_validated w inputs R T N) as (b & _ & S).
  destruct (res (setup w)) as [[i b']|e] eqn:E.
  - destruct (cherryPickCommits_returns (commits i) (final (setup w))) as [r Hr].
    rewrite (@run_setup_ok _ _ w i b' r E Hr), S. cbn [prepend events preamble app]. eauto.
  - rewrite (@run_setup_thrown _ _ w e E), S. cbn [prepend events preamble app]. eauto.
Qed.


(** X9. When setup throws, the run reports the message of the exception
    through [core.setFailed] as its last action and stops: no output is
    set (not even the branch name), no commit is applied, nothing is
    pushed and no hosting-platform call is made. *)
Theorem setup_failure_ends_run (w : World) (e : JsError) :
  res (setup w) = Thrown e ->
  events (run w) = (events (setup w) ++ [ESetFailed (messageOf e)])%list /\
  failures (events (run w)) = [messageOf e] /\
  outputs (events (run w)) = [] /\
  applyAttempts (events (run w)) = [] /\
  noDownstream (events (run w)) = true /\
  final (run w) = final (setup w).
Proof.
  intros S. rewrite (@run_setup_thrown _ _ w e S).
  assert (H : handler e (final (setup w)) =
              {| res := Ok tt; events := [ESetFailed (messageOf e)];
                 final := final (setup w) |}) by (destruct e; reflexivity).
  rewrite H. cbn [prepend events final].
  unfold failures, outputs, applyAttempts. rewrite !flat_map_app, noDownstream_app.
  rewrite (without_flat_map isReportOrApply _ setup w plain_setup)
    by (intros [] Q; try reflexivity; discriminate Q).
  rewrite (without_flat_map isReportOrApply _ setup w plain_setup)
    by (intros [] Q; try reflexivity; discriminate Q).
  rewrite (without_flat_map isReportOrApply _ setup w plain_setup).
  2:{ intros ev Q. unfold isReportOrApply in Q. apply orb_false_iff in Q.
      destruct Q as [_ Q]. destruct (attempt ev); [reflexivity | discriminate Q]. }
  rewrite quiet_setup. repeat split.
Qed.

End Preparation.

(* ================================================================= *)
(** ** After the replay: push, review request, report *)

Section Reporting.

Context {World : Type} {host : Host World}.

Lemma printSummary_returns inputs branchName r prUrl prNumber (w : World) :
  res (printSummary inputs branchName r prUrl prNumber w) = Ok tt /\
  final (printSummary inputs branchName r prUrl prNumber w) = w.
Proof.
  unfold printSummary, whenTruthy.
  destruct (failedCommit r) as [c|]; [destruct (Js.truthy c)|];
    (destruct prUrl as [u|]; [destruct (Js.truthy u)|]); split; reflexivity.
Qed.

Lemma pushBranch_cases (branchName : string) (w : World) :
  let pushed := execute "git" ["push"; "origin"; branchName] noOptions w in
  pushBranch branchName w =
  {| res := if (exitCode (fst pushed) =? 0)%Z then Ok tt
            else Thrown (ErrorObj ("Failed to push branch: " ++ stderr (fst pushed)));
     events := [EInfo ("Pushing branch: " ++ branchName);
                EExec "git" ["push"; "origin"; branchName]];
     final := snd pushed |}.
Proof.
  intros pushed. unfold pushBranch, core_info. rewrite bind_emit.
  erewrite bind_execCommand by apply execute_eta. fold pushed.
  destruct (exitCode (fst pushed) =? 0)%Z; reflexivity.
Qed.

Lemma tryCatch_ok {A} (m : M World A) h (w : World) (a : A) :
  res (m w) = Ok a -> tryCatch m h w = m w.
Proof. intros H. unfold tryCatch. now rewrite H. Qed.

Lemma tryCatch_thrown {A} (m : M World A) h (w : World) e :
  res (m w) = Thrown e -> tryCatch m h w = prepend (events (m w)) (h e (final (m w))).
Proof. intros H. unfold tryCatch, prepend. now rewrite H. Qed.

Lemma concluded_failed inputs b r (w : World) :
  status r = Failed ->
  tryCatch (conclude inputs b r) handler w =
  prepend (events (printSummary inputs b r None None w))
    {| res := Ok tt;
       events := [ESetFailed ("Cherry-pick failed: " ++ interpolate (error r))];
       final := w |}.
Proof.
  intros S. unfold conclude. rewrite S.
  destruct (printSummary_returns inputs b r None None w) as [R F].
  erewrite tryCatch_bind_ok by exact R. rewrite F. reflexivity.
Qed.

Lemma concluded_conflict inputs b r (w : World) :
  status r = Conflict ->
  tryCatch (conclude inputs b r) handler w =
  prepend (events (printSummary inputs b r None None w))
    {| res := Ok tt;
       events := [EWarning "Cherry-pick had conflicts. Manual intervention required.";
                  ESetFailed ("Merge conflict while cherry-picking commit " ++
                              interpolate (failedCommit r))];
       final := w |}.
Proof.
  intros S. unfold conclude. rewrite S.
  destruct (printSummary_returns inputs b r None None w) as [R F].
  erewrite tryCatch_bind_ok by exact R. rewrite F. reflexivity.
Qed.

Lemma concluded_push_thrown inputs b r (w : World) e :
  status r = Success ->
  res (pushBranch b w) = Thrown e ->
  tryCatch (conclude inputs b r) handler w =
  prepend (events (pushBranch b w)) (handler e (final (pushBranch b w))).
Proof.
  intros S P. unfold conclude. rewrite S.
  erewrite tryCatch_bind_thrown by exact P. reflexivity.
Qed.

Lemma concluded_pr_thrown inputs b r (w : World) e :
  status r = Success ->
  res (pushBranch b w) = Ok tt ->
  res (createPullRequest inputs b r (final (pushBranch b w))) = Thrown e ->
  tryCatch (conclude inputs b r) handler w =
  prepend (events (pushBranch b w) ++
           events (createPullRequest inputs b r (final (pushBranch b w))))
    (handler e (final (createPullRequest inputs b r (final (pushBranch b w))))).
Proof.
  intros S P C. unfold conclude. rewrite S.
  erewrite tryCatch_bind_ok by exact P. cbn beta.
  erewrite tryCatch_bind_thrown by exact C.
  now rewrite prepend_prepend.
Qed.

Lemma concluded_success inputs b r (w : World) pr :
  status r = Success ->
  res (pushBranch b w) = Ok tt ->
  res (createPullRequest inputs b r (final (pushBranch b w))) = Ok pr ->
  let w' := final (createPullRequest inputs b r (final (pushBranch b w))) in
  tryCatch (conclude inputs b r) handler w =
  {| res := Ok tt;
     events := (events (pushBranch b w) ++
                events (createPullRequest inputs b r (final (pushBranch b w))) ++
                [ESetOutput "pr-url" (html_url pr);
                 ESetOutput "pr-number" (Js.ofZ (number pr))] ++
                events (printSummary inputs b r (Some (html_url pr)) (Some (number pr)) w') ++
                [EInfo "Cherry-pick and PR creation completed successfully!"])%list;
     final := w' |}.
Proof.
  intros S P C w'. unfold conclude. rewrite S.
  destruct (printSummary_returns inputs b r (Some (html_url pr)) (Some (number pr)) w')
    as [R F].
  erewrite tryCatch_bind_ok by exact P. cbn beta.
  erewrite tryCatch_bind_ok by exact C. cbn beta. fold w'.
  unfold core_setOutput.
  erewrite tryCatch_bind_ok by reflexivity. cbn beta.
  erewrite tryCatch_bind_ok by reflexivity. cbn beta.
  erewrite tryCatch_bind_ok by exact R. cbn beta.
  cbn [emit events final]. rewrite F.
  unfold tryCatch, core_info, emit, prepend. cbn [res events final].
  reflexivity.
Qed.

Lemma plain_quiet {A} (m : M World A) (w : World) :
  Without isReportOrApply m ->
  outputs (events (m w)) = [] /\ failures (events (m w)) = [] /\
  applyAttempts (events (m w)) = [].
Proof.
  intros H. unfold outputs, failures, applyAttempts. repeat split.
  - apply (without_flat_map isReportOrApply _ m w H).
    intros [] Q; try reflexivity; discriminate Q.
  - apply (without_flat_map isReportOrApply _ m w H).
    intros [] Q; try reflexivity; discriminate Q.
  - apply (without_flat_map isReportOrApply _ m w H).
    intros ev Q. unfold isReportOrApply in Q. apply orb_false_iff in Q.
    destruct Q as [_ Q]. destruct (attempt ev); [reflexivity | discriminate Q].
Qed.

Lemma replay_unreported (commits : list string) (w : World) :
  outputs (events (cherryPickCommits commits w)) = [] /\
  failures (events (cherryPickCommits commits w)) = [].
Proof.
  pose proof (unreported_cherryPickLoop commits []) as H.
  unfold outputs, failures, cherryPickCommits. split.
  - apply (without_flat_map isReport _ _ w H). intros [] Q; try reflexivity; discriminate Q.
  - apply (without_flat_map isReport _ _ w H). intros [] Q; try reflexivity; discriminate Q.
Qed.

Lemma outputs_app (a b : list Event) : outputs (a ++ b) = (outputs a ++ outputs b)%list.
Proof. apply flat_map_app. Qed.

Lemma failures_app (a b : list Event) : failures (a ++ b) = (failures a ++ failures b)%list.
Proof. apply flat_map_app. Qed.

Lemma handler_run (e : JsError) (w : World) :
  handler e w = {| res := Ok tt; events := [ESetFailed (messageOf e)]; final := w |}.
Proof. destruct e; reflexivity. Qed.

(** Clears the outputs and failures of the parts of a run that report
    nothing. *)
Ltac unreport inputs b r w :=
  repeat rewrite outputs_app; repeat rewrite failures_app;
  repeat rewrite (proj1 (plain_quiet setup w plain_setup));
  repeat rewrite (proj1 (proj2 (plain_quiet setup w plain_setup)));
  repeat rewrite (proj1 (replay_unreported _ _));
  repeat rewrite (proj2 (replay_unreported _ _));
  repeat rewrite (proj1 (plain_quiet _ _ (plain_printSummary inputs b r _ _)));
  repeat rewrite (proj1 (proj2 (plain_quiet _ _ (plain_printSummary inputs b r _ _))));
  repeat rewrite (proj1 (plain_quiet _ _ (plain_pushBranch b)));
  repeat rewrite (proj1 (proj2 (plain_quiet _ _ (plain_pushBranch b))));
  repeat rewrite (proj1 (plain_quiet _ _ (plain_createPullRequest inputs b r)));
  repeat rewrite (proj1 (proj2 (plain_quiet _ _ (plain_createPullRequest inputs b r)))).

(** X10. What a run that reached the replay reports.  The outputs
    [cherry-pick-status] and [branch-name] are always set, in this order.
    A replay that failed is reported with "Cherry-pick failed: " and its
    error, a conflict with "Merge conflict while cherry-picking commit "
    and the failed commit; after a successful replay, an exception of the
    push or of the pull-request creation is reported with its message.
    Only when both went through are [pr-url] and [pr-number] set too, to
    the address and the number of the created pull request, and then
    nothing is reported as failed.  In every other case exactly one failure
    is reported. *)
Theorem run_report (w : World) (inputs : Inputs) (b : string) (r : CherryPickResult) :
  res (setup w) = Ok (inputs, b) ->
  res (cherryPickCommits (commits inputs) (final (setup w))) = Ok r ->
  let w2 := final (cherryPickCommits (commits inputs) (final (setup w))) in
  let base := [("cherry-pick-status", statusText (status r)); ("branch-name", b)] in
  let evs := events (run w) in
  match status r with
  | Failed =>
      outputs evs = base /\
      failures evs = ["Cherry-pick failed: " ++ interpolate (error r)]
  | Conflict =>
      outputs evs = base /\
      failures evs = ["Merge conflict while cherry-picking commit " ++
                      interpolate (failedCommit r)]
  | Success =>
      match res (pushBranch b w2) with
      | Thrown e => outputs evs = base /\ failures evs = [messageOf e]
      | Ok _ =>
          match res (createPullRequest inputs b r (final (pushBranch b w2))) with
          | Thrown e => outputs evs = base /\ failures evs = [messageOf e]
          | Ok pr =>
              outputs evs =
                (base ++ [("pr-url", html_url pr); ("pr-number", Js.ofZ (number pr))])%list /\
              failures evs = []
          end
      end
  end.
Proof.
  intros S R w2 base evs. subst evs.
  rewrite (@run_setup_ok _ _ w inputs b r S R). fold w2. cbn [prepend events].
  destruct (status r) eqn:St.
  - destruct (res (pushBranch b w2)) as [[]|e] eqn:P.
    + destruct (res (createPullRequest inputs b r (final (pushBranch b w2))))
        as [pr|e] eqn:C.
      * rewrite (concluded_success inputs b r w2 pr St P C). cbn [events].
        unreport inputs b r w. split; reflexivity.
      * rewrite (concluded_pr_thrown inputs b r w2 e St P C), handler_run.
        cbn [prepend events]. unreport inputs b r w. split; reflexivity.
    + rewrite (concluded_push_thrown inputs b r w2 e St P), handler_run.
      cbn [prepend events]. unreport inputs b r w. split; reflexivity.
  - rewrite (concluded_conflict inputs b r w2 St). cbn [prepend events].
    unreport inputs b r w. split; reflexivity.
  - rewrite (concluded_failed inputs b r w2 St). cbn [prepend events].
    unreport inputs b r w. split; reflexivity.
Qed.

(** X11. When the replay succeeded but [git push origin <branch>] exits
    with a non-zero code, the run sets the two outputs, tries the push,
    reports "Failed to push branch: " with the standard error of the push,
    and stops there: no pull request is requested and no label attached. *)
Theorem push_failure_stops_run (w : World) (inputs : Inputs) (b : string)
    (r : CherryPickResult) :
  res (setup w) = Ok (inputs, b) ->
  res (cherryPickCommits (commits inputs) (final (setup w))) = Ok r ->
  status r = Success ->
  let w2 := final (cherryPickCommits (commits inputs) (final (setup w))) in
  let pushed := execute "git" ["push"; "origin"; b] noOptions w2 in
  exitCode (fst pushed) <> 0%Z ->
  run w =
  {| res := Ok tt;
     events := (events (setup w) ++
                events (cherryPickCommits (commits inputs) (final (setup w))) ++
                [ESetOutput "cherry-pick-status" "success";
                 ESetOutput "branch-name" b;
                 EInfo ("Pushing branch: " ++ b);
                 EExec "git" ["push"; "origin"; b];
                 ESetFailed ("Failed to push branch: " ++ stderr (fst pushed))])%list;
     final := snd pushed |}.
Proof.
  intros S R St w2 pushed E.
  rewrite (@run_setup_ok _ _ w inputs b r S R). fold w2.
  pose proof (pushBranch_cases b w2) as P. cbv zeta in P. fold pushed in P.
  apply Z.eqb_neq in E. rewrite E in P.
  erewrite concluded_push_thrown by (try exact St; rewrite P; reflexivity).
  rewrite P, St. reflexivity.
Qed.

(** X12. A failure is reported at most once in a run, and then it is the
    last thing the run does: the trace is a part without any
    [core.setFailed], followed by nothing or by a single one. *)
Theorem failure_reported_last (w : World) :
  exists pre tail,
    events (run w) = (pre ++ tail)%list /\
    failures pre = [] /\
    (tail = [] \/ exists message, tail = [ESetFailed message]).
Proof.
  destruct (res (setup w)) as [[inputs b]|e] eqn:S.
  - destruct (cherryPickCommits_returns (commits inputs) (final (setup w))) as [r R].
    rewrite (@run_setup_ok _ _ w inputs b r S R).
    set (w2 := final (cherryPickCommits (commits inputs) (final (setup w)))).
    cbn [prepend events].
    destruct (status r) eqn:St.
    + destruct (res (pushBranch b w2)) as [[]|e] eqn:P.
      * destruct (res (createPullRequest inputs b r (final (pushBranch b w2))))
          as [pr|e] eqn:C.
        -- rewrite (concluded_success inputs b r w2 pr St P C). cbn [events].
           eexists _, []. rewrite app_nil_r. split; [reflexivity|].
           split; [|now left]. unreport inputs b r w. reflexivity.
        -- rewrite (concluded_pr_thrown inputs b r w2 e St P C), handler_run.
           cbn [prepend events].
           exists (events (setup w) ++
                   events (cherryPickCommits (commits inputs) (final (setup w))) ++
                   [ESetOutput "cherry-pick-status" (statusText Success);
                    ESetOutput "branch-name" b] ++
                   events (pushBranch b w2) ++
                   events (createPullRequest inputs b r (final (pushBranch b w2))))%list,
             [ESetFailed (messageOf e)].
           split; [now rewrite <- !app_assoc|]. split; [|eauto].
           unreport inputs b r w. reflexivity.
      * rewrite (concluded_push_thrown inputs b r w2 e St P), handler_run.
        cbn [prepend events].
        exists (events (setup w) ++
                events (cherryPickCommits (commits inputs) (final (setup w))) ++
                [ESetOutput "cherry-pick-status" (statusText Success);
                 ESetOutput "branch-name" b] ++
                events (pushBranch b w2))%list,
          [ESetFailed (messageOf e)].
        split; [now rewrite <- !app_assoc|]. split; [|eauto].
        unreport inputs b r w. reflexivity.
    + rewrite (concluded_conflict inputs b r w2 St). cbn [prepend events].
      exists (events (setup w) ++
              events (cherryPickCommits (commits inputs) (final (setup w))) ++
              [ESetOutput "cherry-pick-status" (statusText Conflict);
               ESetOutput "branch-name" b] ++
              events (printSummary inputs b r None None w2) ++
              [EWarning "Cherry-pick had conflicts. Manual intervention required."])%list.
      eexists. split; [now rewrite <- !app_assoc|]. split; [|eauto].
      unreport inputs b r w. reflexivity.
    + rewrite (concluded_failed inputs b r w2 St). cbn [prepend events].
      exists (events (setup w) ++
              events (cherryPickCommits (commits inputs) (final (setup w))) ++
              [ESetOutput "cherry-pick-status" (statusText Failed);
               ESetOutput "branch-name" b] ++
              events (printSummary inputs b r None None w2))%list.
      eexists. split; [now rewrite <- !app_assoc|]. split; [|eauto].
      unreport inputs b r w. reflexivity.
  - rewrite (@run_setup_thrown _ _ w e S), handler_run. cbn [prepend events].
    exists (events (setup w)), [ESetFailed (messageOf e)].
    split; [reflexivity|]. split; [|eauto].
    apply (plain_quiet setup w plain_setup).
Qed.

End Reporting.

(* ================================================================= *)
(** ** The creation request and its labels *)

Section Labels.

Context {World : Type} {host : Host World}.

Lemma bind_request {A B} (f : World -> Result A * World) (k : A -> M World B) (w : World) :
  bind (request f) k w =
  match fst (f w) with
  | Ok a => k a (snd (f w))
  | Thrown e => {| res := Thrown e; events := []; final := snd (f w) |}
  end.
Proof.
  unfold bind, request. destruct (f w) as [[a|e] w']; cbn; [|reflexivity].
  destruct (k a w'); reflexivity.
Qed.

(** X13. With an octokit client and a composed title and body,
    [createPullRequest] sends one creation request.  If the request throws,
    the exception goes to the caller and no label is attached.  Otherwise
    labels are attached in a single call, after the creation, to the
    number of the created pull request and with the labels in their input
    order, exactly when the label list is not empty; the function returns
    the address and number of the created pull request unless that call
    throws. *)
Theorem review_request_and_labels (inputs : Inputs) (b : string) (r : CherryPickResult)
    (w : World) (title body : string) :
  github_getOctokit (ghToken inputs) w = Ok tt ->
  res (composeTitle inputs w) = Ok title ->
  let w1 := final (composeTitle inputs w) in
  res (composeBody inputs r w1) = Ok body ->
  let w2 := final (composeBody inputs r w1) in
  let owner := nth_error (Js.split "/" (repository inputs)) 0 in
  let repo := nth_error (Js.split "/" (repository inputs)) 1 in
  let params :=
    {| pc_owner := owner; pc_repo := repo; pc_title := title; pc_body := body;
       pc_head := b; pc_base := targetBranch inputs; pc_draft := draft inputs |} in
  let created := pulls_create params w2 in
  let before :=
    (events (composeTitle inputs w) ++ events (composeBody inputs r w1) ++
     [EInfo "Creating pull request..."; EPullsCreate params])%list in
  match fst created with
  | Thrown e =>
      createPullRequest inputs b r w =
      {| res := Thrown e; events := before; final := snd created |}
  | Ok response =>
      let answer := {| html_url := html_url response; number := number response |} in
      let lparams :=
        {| al_owner := owner; al_repo := repo;
           al_issue_number := number response; al_labels := labels inputs |} in
      match labels inputs with
      | [] =>
          createPullRequest inputs b r w =
          {| res := Ok answer;
             events := (before ++
                        [EInfo ("Pull request created: " ++ html_url response)])%list;
             final := snd created |}
      | _ :: _ =>
          let attached := issues_addLabels lparams (snd created) in
          createPullRequest inputs b r w =
          {| res := match fst attached with
                    | Ok _ => Ok answer
                    | Thrown e => Thrown e
                    end;
             events := (before ++
                        [EInfo ("Pull request created: " ++ html_url response);
                         EInfo ("Adding labels: " ++ Js.join ", " (labels inputs));
                         EAddLabels lparams])%list;
             final := snd attached |}
      end
  end.
Proof.
  intros O T w1 B w2 owner repo params created before.
  assert (Start : forall k : string -> string -> M World PullsCreateResponse,
            (lift (github_getOctokit (ghToken inputs)) ;;;
             title <- composeTitle inputs ;;
             body <- composeBody inputs r ;;
             core_info "Creating pull request..." ;;;
             k title body) w =
            prepend (events (composeTitle inputs w) ++ events (composeBody inputs r w1) ++
                     [EInfo "Creating pull request..."])%list
              (k title body w2)).
  { intros k. erewrite bind_ok by (cbn; exact O). cbn beta. cbn [lift events final].
    erewrite bind_ok by exact T. cbn beta. fold w1.
    erewrite bind_ok by exact B. cbn beta. fold w2.
    unfold core_info. rewrite bind_emit, !prepend_prepend.
    cbn [app]. now rewrite <- !app_assoc. }
  assert (Flat : forall (x y z : list Event) (o : Outcome World PullsCreateResponse),
            prepend (x ++ y ++ z)%list o =
            {| res := res o; events := (x ++ y ++ z ++ events o)%list; final := final o |}).
  { intros x y z o. unfold prepend. now rewrite <- !app_assoc. }
  destruct (fst created) as [response|e] eqn:C.
  - destruct (labels inputs) as [|l ls] eqn:L.
    + unfold createPullRequest. rewrite L.
      rewrite (Start (fun title body => _)). fold owner repo. fold params.
      rewrite bind_emit, bind_request. fold created. rewrite C.
      unfold core_info. rewrite bind_emit, Flat. subst before.
      cbn [prepend ret res events final app]. rewrite <- ?app_assoc. reflexivity.
    + unfold createPullRequest. rewrite L.
      rewrite (Start (fun title body => _)). fold owner repo. fold params.
      rewrite bind_emit, bind_request. fold created. rewrite C.
      unfold core_info. rewrite bind_emit. cbn [List.length Nat.ltb Nat.leb].
      rewrite bind_assoc, bind_emit, bind_assoc, bind_emit, bind_request.
      rewrite Flat. subst before.
      destruct (issues_addLabels _ (snd created)) as [[[]|e] w4];
        cbn [prepend ret res events final app fst snd]; rewrite <- ?app_assoc; reflexivity.
  - unfold createPullRequest.
    rewrite (Start (fun title body => _)). fold owner repo. fold params.
    rewrite bind_emit, bind_request. fold created. rewrite C, Flat. subst before.
    cbn [prepend ret res events final app]. rewrite <- ?app_assoc. reflexivity.
Qed.

End Labels.

(* ================================================================= *)
(** ** Branch names *)

Lemma append_cancel (a x y : string) : a ++ x = a ++ y -> x = y.
Proof.
  induction a as [|c a IH]; cbn; intros H; [exact H|].
  injection H as H. now apply IH.
Qed.

Lemma ofZ_inj (z1 z2 : Z) : Js.ofZ z1 = Js.ofZ z2 -> z1 = z2.
Proof.
  unfold Js.ofZ. intros H.
  assert (N : forall z, Z.to_int z <> Decimal.Pos Decimal.Nil /\
                        Z.to_int z <> Decimal.Neg Decimal.Nil).
  { intros [|p|p]; cbn; split; try discriminate; intros K; injection K as K;
      exact (DecimalPos.Unsigned.to_uint_nonnil p K). }
  apply DecimalZ.to_int_inj.
  pose proof (NilZero.isi (Z.to_int z1) (proj1 (N z1)) (proj2 (N z1))) as I1.
  pose proof (NilZero.isi (Z.to_int z2) (proj1 (N z2)) (proj2 (N z2))) as I2.
  rewrite H in I1. congruence.
Qed.

Lemma replaceAll_clean (c d : ascii) (s : string) :
  c <> d -> ~ In c (list_ascii_of_string (Js.replaceAll c d s)).
Proof.
  intros N. induction s as [|x s IH]; cbn; [tauto|].
  intros [H|H]; [|now apply IH].
  destruct (Ascii.eqb_spec x c) as [E|E]; [now apply N | now apply E].
Qed.

Lemma replaceAll_length (c d : ascii) (s : string) :
  String.length (Js.replaceAll c d s) = String.length s.
Proof. induction s as [|x s IH]; cbn; [reflexivity | now rewrite IH]. Qed.

Lemma replaceAll_absent (c d : ascii) (s : string) :
  ~ In c (list_ascii_of_string s) -> Js.replaceAll c d s = s.
Proof.
  induction s as [|x s IH]; cbn; intros H; [reflexivity|].
  destruct (Ascii.eqb_spec x c) as [E|E]; [exfalso; apply H; now left|].
  rewrite IH; [reflexivity | tauto].
Qed.

Lemma substring0_split (n : nat) (s : string) :
  exists rest, s = Js.substring0 n s ++ rest.
Proof.
  unfold Js.substring0. revert s; induction n as [|n IH]; intros [|x s]; cbn.
  - exists "". reflexivity.
  - exists (String x s). reflexivity.
  - exists "". reflexivity.
  - destruct (IH s) as [rest E]. exists rest. now rewrite <- E.
Qed.

Section Names.

Context {World : Type} {host : Host World}.

(** X14. Two names generated for the same target branch and commits at
    different clock readings are different: the decimal rendering of the
    clock at the end of the name tells them apart. *)
Theorem names_differ_in_time (target : string) (commits : list string) (w1 w2 : World) :
  commits <> [] ->
  Date_now w1 <> Date_now w2 ->
  res (generateBranchName target commits w1) <> res (generateBranchName target commits w2).
Proof.
  intros C D H. destruct commits as [|c rest]; [now apply C|].
  unfold generateBranchName, bind, observe, ret in H. cbn in H.
  injection H as H.
  apply D, ofZ_inj.
  repeat (apply append_cancel in H || (injection H as H)). exact H.
Qed.

(** X15. A generated name is "cherrypick/", a segment, "/", a short hash,
    "-" and the clock in decimal, where the segment has the length of the
    target branch and holds no "/" (it is the target itself when that has
    none), and the short hash is the beginning of the first commit: its
    first seven characters, or all of it when it is shorter. *)
Theorem generated_name_shape (target c : string) (rest : list string) (w : World) :
  exists segment short,
    generateBranchName target (c :: rest) w =
      {| res := Ok ("cherrypick/" ++ segment ++ "/" ++ short ++ "-" ++
                    Js.ofZ (Date_now w));
         events := []; final := w |} /\
    ~ In "/"%char (list_ascii_of_string segment) /\
    String.length segment = String.length target /\
    (~ In "/"%char (list_ascii_of_string target) -> segment = target) /\
    (exists tail, c = short ++ tail) /\
    String.length short = Nat.min 7 (String.length c).
Proof.
  exists (Js.replaceAll "/" "-" target), (Js.substring0 7 c).
  split; [reflexivity|].
  split; [apply replaceAll_clean; discriminate|].
  split; [apply replaceAll_length|].
  split; [apply replaceAll_absent|].
  split; [apply substring0_split|].
  apply length_substring0.
Qed.

End Names.

(* ================================================================= *)
(** ** Subject lookups *)

Section Lookups.

Context {World : Type} {host : Host World}.





End Lookups.

(* ================================================================= *)
(** ** Parsing the repository and the commit list *)

Lemma split_single (sep : ascii) (s : string) :
  ~ In sep (list_ascii_of_string s) -> Js.split sep s = [s].
Proof.
  induction s as [|c s IH]; cbn; intros H; [reflexivity|].
  destruct (Ascii.eqb_spec c sep) as [E|E]; [exfalso; apply H; now left|].
  rewrite IH by tauto. reflexivity.
Qed.

Lemma split_append (sep : ascii) (a b : string) :
  ~ In sep (list_ascii_of_string a) ->
  Js.split sep (a ++ String sep b) = a :: Js.split sep b.
Proof.
  induction a as [|c a IH]; cbn [append Js.split list_ascii_of_string]; intros H.
  - now rewrite Ascii.eqb_refl.
  - destruct (Ascii.eqb_spec c sep) as [E|E]; [exfalso; apply H; now left|].
    rewrite IH by (intros K; apply H; now right). reflexivity.
Qed.

(** Joining entries that hold no separator and splitting again gives the
    entries back. *)
Lemma split_of_join (sep : ascii) (l : list string) :
  l <> [] ->
  Forall (fun e => ~ In sep (list_ascii_of_string e)) l ->
  Js.split sep (Js.join (String sep "") l) = l.
Proof.
  intros N F. induction F as [|x l Hx F IH]; [now contradiction N|].
  destruct l as [|y l].
  - cbn [Js.join]. now apply split_single.
  - change (Js.join (String sep "") (x :: y :: l))
      with (x ++ String sep (Js.join (String sep "") (y :: l))).
    rewrite split_append by exact Hx. rewrite IH by discriminate. reflexivity.
Qed.

Lemma trimStart_fixed (s : string) :
  notSpace (firstChar s) = true -> Js.trimStart s = s.
Proof.
  destruct s as [|c s]; cbn; [reflexivity|].
  destruct (Js.isWhiteSpace c); [discriminate | reflexivity].
Qed.

Lemma trimEnd_fixed (s : string) :
  notSpace (lastChar s) = true -> Js.trimEnd s = s.
Proof.
  induction s as [|c s IH]; [reflexivity|].
  cbn [Js.trimEnd lastChar]. destruct s as [|d s].
  - cbn. destruct (Js.isWhiteSpace c); [discriminate | reflexivity].
  - intros H. rewrite IH by exact H. reflexivity.
Qed.

Lemma trim_fixed (s : string) : trimmed s = true -> Js.trim s = s.
Proof.
  unfold trimmed, Js.trim. intros H. apply andb_true_iff in H. destruct H as [F L].
  rewrite trimStart_fixed by exact F. now apply trimEnd_fixed.
Qed.

Lemma list_ascii_append (a b : string) :
  list_ascii_of_string (a ++ b) = (list_ascii_of_string a ++ list_ascii_of_string b)%list.
Proof. induction a as [|c a IH]; cbn; [reflexivity | now rewrite IH]. Qed.

Lemma trimOf_keeps_out (c : ascii) (s t : string) :
  trimOf s t -> ~ In c (list_ascii_of_string s) -> ~ In c (list_ascii_of_string t).
Proof.
  intros (l & r & -> & _) H K. apply H.
  rewrite !list_ascii_append. apply in_or_app. right. apply in_or_app. now left.
Qed.

Lemma blank_append (a b : string) : blank (a ++ b) = blank a && blank b.
Proof. unfold blank. rewrite list_ascii_append. apply forallb_app. Qed.

Lemma trim_blank (s : string) : Js.trim s = "" <-> blank s = true.
Proof.
  split.
  - intros E. destruct (trim_spec s) as (l & r & S & Bl & Br & _).
    rewrite E in S. rewrite S. cbn [append]. now rewrite blank_append, Bl, Br.
  - intros B. unfold Js.trim.
    assert (T : Js.trimStart s = "").
    { induction s as [|c s IH]; [reflexivity|]. unfold blank in B. cbn in B.
      apply andb_true_iff in B. destruct B as [W B]. cbn. rewrite W. now apply IH. }
    now rewrite T.
Qed.

(** X17. The commit list of a run is in normal form: joining its entries
    with commas and parsing the result again gives the same list.  Every
    entry is free of commas and of surrounding white space, and there is
    always at least one entry. *)
Theorem parseCommits_normal (raw : string) :
  parseCommits (Js.join "," (parseCommits raw)) = parseCommits raw /\
  parseCommits raw <> [] /\
  Forall (fun e => ~ In ","%char (list_ascii_of_string e) /\ trimmed e = true)
    (parseCommits raw).
Proof.
  assert (F : Forall (fun e => ~ In ","%char (list_ascii_of_string e) /\ trimmed e = true)
                (parseCommits raw)).
  { unfold parseCommits. destruct (split_join "," raw) as [_ S].
    induction S as [|x l Hx S IH]; cbn [map]; constructor; [|exact IH].
    pose proof (trim_spec x) as T. split.
    - exact (trimOf_keeps_out _ _ _ T Hx).
    - destruct T as (_ & _ & _ & _ & _ & T). exact T. }
  assert (N : parseCommits raw <> []).
  { unfold parseCommits. destruct (split_cons "," raw) as (h & t & ->). discriminate. }
  split; [|split; assumption].
  unfold parseCommits at 1. rewrite split_of_join.
  - clear N. induction F as [|x l [_ Hx] F IH]; [reflexivity|]. cbn [map].
    rewrite trim_fixed by exact Hx. f_equal. exact IH.
  - exact N.
  - eapply Forall_impl; [|exact F]. intros e [H _]. exact H.
Qed.

(** X18. The commits input is rejected as "No commits specified" exactly
    when it consists of white space only (the empty input included): one
    comma, or one character that is not white space, is enough to pass
    this check. *)
Theorem rejected_iff_blank (raw : string) :
  noCommitsSpecified (parseCommits raw) = true <-> blank raw = true.
Proof.
  rewrite noCommitsSpecified_spec. unfold parseCommits. split.
  - intros [H|H].
    + destruct (split_cons "," raw) as (h & t & E). rewrite E in H. discriminate H.
    + destruct (split_join "," raw) as [J _].
      destruct (Js.split "," raw) as [|x [|y l]]; try discriminate H.
      cbn [map] in H. injection H as H. cbn [Js.join] in J. subst x.
      now apply trim_blank.
  - intros B. right.
    assert (C : ~ In ","%char (list_ascii_of_string raw)).
    { unfold blank in B. rewrite forallb_forall in B. intros K.
      specialize (B _ K). discriminate B. }
    rewrite split_single by exact C. cbn [map]. f_equal. now apply trim_blank.
Qed.

(** X19. The owner and the repository of the creation request are the
    first two "/"-separated parts of the repository input: "owner/repo"
    gives both, anything after a second "/" is dropped, and an input
    without "/" (which passes validation when it is not empty) gives the
    whole input as owner and no repository at all. *)
Theorem repository_parts (repository : string) :
  let parts := Js.split "/" repository in
  (forall owner repo,
     ~ In "/"%char (list_ascii_of_string owner) ->
     ~ In "/"%char (list_ascii_of_string repo) ->
     repository = owner ++ "/" ++ repo ->
     nth_error parts 0 = Some owner /\ nth_error parts 1 = Some repo) /\
  (forall owner repo more,
     ~ In "/"%char (list_ascii_of_string owner) ->
     ~ In "/"%char (list_ascii_of_string repo) ->
     repository = owner ++ "/" ++ repo ++ "/" ++ more ->
     nth_error parts 0 = Some owner /\ nth_error parts 1 = Some repo) /\
  (~ In "/"%char (list_ascii_of_string repository) ->
   nth_error parts 0 = Some repository /\ nth_error parts 1 = None).
Proof.
  intros parts. subst parts. split; [|split].
  - intros owner repo Ho Hr ->. cbn [append].
    rewrite split_append by exact Ho. rewrite split_single by exact Hr. split; reflexivity.
  - intros owner repo more Ho Hr ->. cbn [append].
    rewrite split_append by exact Ho. rewrite split_append by exact Hr.
    split; reflexivity.
  - intros H. rewrite split_single by exact H. split; reflexivity.
Qed.

(* ================================================================= *)
(** ** Replaying a list in two parts *)

Section Composition.

Context {World : Type} {host : Host World}.

Lemma withApplied_prepend (pre : list string) (evs : list Event)
    (o : Outcome World CherryPickResult) :
  withApplied pre (prepend evs o) = prepend evs (withApplied pre o).
Proof. reflexivity. Qed.

Lemma withApplied_twice (a b : list string) (o : Outcome World CherryPickResult) :
  withApplied a (withApplied b o) = withApplied (a ++ b) o.
Proof.
  unfold withApplied. cbn [res events final].
  destruct (res o) as [r|e]; [|reflexivity]. cbn. now rewrite app_assoc.
Qed.

(** The commits already applied when the loop starts only show in the
    result, in front of what the loop applies itself. *)
Lemma loop_shift (remaining : list string) (w : World) :
  forall acc,
    cherryPickLoop remaining acc w = withApplied acc (cherryPickLoop remaining [] w).
Proof.
  pose (P := fun (remaining _ : list string) (w : World)
                 (_ : Outcome World CherryPickResult) =>
               forall acc,
                 cherryPickLoop remaining acc w =
                 withApplied acc (cherryPickLoop remaining [] w)).
  enough (G : forall remaining acc0 w, P remaining acc0 w (cherryPickLoop remaining acc0 w))
    by exact (G remaining [] w).
  clear remaining w. apply (loop_outcome_ind P); unfold P.
  - intros _ w acc. unfold withApplied. cbn. now rewrite app_nil_r.
  - intros c rest _ w r1 w1 r2 w2 H1 E1 H2 T2 IH acc.
    erewrite !step_landed by eassumption.
    rewrite (IH (acc ++ [c])%list), (IH ([] ++ [c])%list).
    rewrite withApplied_prepend, withApplied_twice. reflexivity.
  - intros c rest _ w r1 w1 r2 w2 H1 E1 H2 E2 N2 acc.
    apply includes_not in N2.
    erewrite !step_finalize_failed by eassumption.
    unfold withApplied. cbn. now rewrite app_nil_r.
  - intros c rest _ w r1 w1 st w2 H1 E1 H2 C2 acc.
    apply hasConflict_spec in C2.
    erewrite !step_conflict by eassumption.
    unfold withApplied. cbn. now rewrite app_nil_r.
  - intros c rest _ w r1 w1 st w2 H1 E1 H2 C2 acc.
    apply hasConflict_not in C2.
    erewrite !step_apply_failed by eassumption.
    unfold withApplied. cbn. now rewrite app_nil_r.
Qed.

Lemma loop_append (remaining : list string) :
  forall acc w more,
    match res (cherryPickLoop remaining acc w) with
    | Ok r =>
        match status r with
        | Success =>
            cherryPickLoop (remaining ++ more) acc w =
            prepend (events (cherryPickLoop remaining acc w))
              (cherryPickLoop more (successfulCommits r)
                 (final (cherryPickLoop remaining acc w)))
        | _ => cherryPickLoop (remaining ++ more) acc w = cherryPickLoop remaining acc w
        end
    | Thrown _ => True
    end.
Proof.
  pose (P := fun (remaining acc : list string) (w : World)
                 (o : Outcome World CherryPickResult) =>
               forall more,
                 match res o with
                 | Ok r =>
                     match status r with
                     | Success =>
                         cherryPickLoop (remaining ++ more) acc w =
                         prepend (events o)
                           (cherryPickLoop more (successfulCommits r) (final o))
                     | _ => cherryPickLoop (remaining ++ more) acc w = o
                     end
                 | Thrown _ => True
                 end).
  enough (G : forall remaining acc w, P remaining acc w (cherryPickLoop remaining acc w))
    by (intros acc w; apply G).
  clear remaining. apply (loop_outcome_ind P); unfold P.
  - intros acc w more. cbn. now rewrite prepend_nil.
  - intros c rest acc w r1 w1 r2 w2 H1 E1 H2 T2 IH more.
    specialize (IH more). cbn [prepend res events final].
    rewrite <- app_comm_cons. erewrite step_landed by eassumption.
    destruct (res (cherryPickLoop rest (acc ++ [c]) w2)) as [r|e]; [|exact I].
    destruct (status r); rewrite IH; [now rewrite prepend_prepend | reflexivity..].
  - intros c rest acc w r1 w1 r2 w2 H1 E1 H2 E2 N2 more.
    apply includes_not in N2. cbn [res status].
    rewrite <- app_comm_cons. erewrite step_finalize_failed by eassumption. reflexivity.
  - intros c rest acc w r1 w1 st w2 H1 E1 H2 C2 more.
    apply hasConflict_spec in C2. cbn [res status].
    rewrite <- app_comm_cons. erewrite step_conflict by eassumption. reflexivity.
  - intros c rest acc w r1 w1 st w2 H1 E1 H2 C2 more.
    apply hasConflict_not in C2. cbn [res status].
    rewrite <- app_comm_cons. erewrite step_apply_failed by eassumption. reflexivity.
Qed.

(** X20. Replaying a list is replaying its first part and then, if that
    succeeded, the rest from where the first part left the world: the
    traces follow each other and the commits of the first part come first
    in the result.  If the first part ends in a conflict or a failure, the
    commits after it make no difference at all: the outcome is that of the
    first part alone. *)
Theorem replay_in_two_parts (first second : list string) (w : World) :
  exists r,
    res (cherryPickCommits first w) = Ok r /\
    match status r with
    | Success =>
        cherryPickCommits (first ++ second) w =
        prepend (events (cherryPickCommits first w))
          (withApplied first
             (cherryPickCommits second (final (cherryPickCommits first w))))
    | Conflict | Failed =>
        cherryPickCommits (first ++ second) w = cherryPickCommits first w
    end.
Proof.
  destruct (cherryPickCommits_returns first w) as [r R]. exists r. split; [exact R|].
  pose proof (loop_append first [] w second) as A.
  unfold cherryPickCommits in *. rewrite R in A.
  destruct (status r) eqn:St; try exact A.
  assert (Sc : successfulCommits r = first)
    by (eapply success_applied_all; [exact R | exact St]).
  rewrite A, Sc. f_equal. apply loop_shift.
Qed.

End Composition.

(* ================================================================= *)
(** ** The inputs object *)

Section InputsObject.

Context {World : Type} {host : Host World}.

Lemma or_empty (a : string) : Js.or a "" = a.
Proof. unfold Js.or. destruct a; reflexivity. Qed.

Lemma lift_ok_inv {A B} (f : World -> Result A) (k : A -> M World B) (w : World) (b : B) :
  res (bind (lift f) k w) = Ok b ->
  exists a, f w = Ok a /\ res (k a w) = Ok b.
Proof.
  intros H. apply bind_ok_inv in H. destruct H as (a & Ha & H). exists a. split; assumption.
Qed.

(** X21. How the optional inputs are filled in when the inputs object is
    built.  The [repository] input wins over the environment; the
    environment's [GITHUB_REPOSITORY] is used only when the input is empty,
    and the repository is empty when both are.  The author name and email
    fall back to the bot identity when empty.  The draft flag is set for
    the input "true" and for nothing else.  The labels are the
    comma-separated entries of the input, trimmed, and there is none when
    the input is empty. *)
Theorem inputs_defaults (w : World) (inputs : Inputs) :
  res (readInputs w) = Ok inputs ->
  exists given name email flag tags,
    core_getInput "repository" false w = Ok given /\
    core_getInput "author-name" false w = Ok name /\
    core_getInput "author-email" false w = Ok email /\
    core_getInput "draft" false w = Ok flag /\
    core_getInput "labels" false w = Ok tags /\
    repository inputs =
      (if Js.truthy given then given
       else match env_GITHUB_REPOSITORY w with
            | Some e => e
            | None => ""
            end) /\
    authorName inputs = (if Js.truthy name then name else "github-actions[bot]") /\
    authorEmail inputs =
      (if Js.truthy email then email
       else "github-actions[bot]@users.noreply.github.com") /\
    (draft inputs = true <-> flag = "true") /\
    labels inputs = (if Js.truthy tags then map Js.trim (Js.split "," tags) else []).
Proof.
  intros H. unfold readInputs, input in H.
  apply lift_ok_inv in H. destruct H as (c & _ & H).
  apply lift_ok_inv in H. destruct H as (t & _ & H).
  apply lift_ok_inv in H. destruct H as (nb & _ & H).
  apply lift_ok_inv in H. destruct H as (pt & _ & H).
  apply lift_ok_inv in H. destruct H as (pb & _ & H).
  apply lift_ok_inv in H. destruct H as (tok & _ & H).
  apply lift_ok_inv in H. destruct H as (given & G & H).
  apply bind_ok_inv in H. destruct H as (env & Henv & H).
  cbn in Henv. injection Henv as <-. cbn [observe final] in H.
  apply lift_ok_inv in H. destruct H as (name & Nm & H).
  apply lift_ok_inv in H. destruct H as (email & Em & H).
  apply lift_ok_inv in H. destruct H as (flag & Fl & H).
  apply lift_ok_inv in H. destruct H as (tags & Tg & H).
  exists given, name, email, flag, tags.
  repeat (split; [assumption|]).
  assert (L : exists ls,
             ls = (if Js.truthy tags then map Js.trim (Js.split "," tags) else []) /\
             inputs =
             {| commits := parseCommits c; targetBranch := t; newBranch := Js.or nb "";
                prTitle := Js.or pt ""; prBody := Js.or pb ""; ghToken := tok;
                repository := Js.or (Js.or given (nullish (env_GITHUB_REPOSITORY w) "")) "";
                authorName := Js.or name "github-actions[bot]";
                authorEmail := Js.or email "github-actions[bot]@users.noreply.github.com";
                draft := flag =? "true"; labels := ls |}).
  { destruct (Js.truthy tags).
    - apply bind_ok_inv in H. destruct H as (ls & Hls & H).
      apply lift_ok_inv in Hls. destruct Hls as (again & Ag & Hls).
      rewrite Tg in Ag. injection Ag as <-.
      cbn in Hls. injection Hls as <-. cbn in H. injection H as <-. eauto.
    - cbn in H. injection H as <-. eauto. }
  destruct L as (ls & -> & ->). cbn [repository authorName authorEmail draft labels].
  rewrite or_empty. unfold Js.or, nullish.
  split; [reflexivity|]. split; [reflexivity|]. split; [reflexivity|].
  split; [apply String.eqb_eq | reflexivity].
Qed.

End InputsObject.

(* ================================================================= *)
(** ** More scripted scenarios *)

Section MoreScenarios.

Import Scripted.

(** The token is registered before anything else happens. *)
Lemma secret_first_witness :
  exists rest, events (run (allClean "abc1234")) = ESetSecret "t0ken" :: rest.
Proof.
  assert (R : res (readInputs (allClean "abc1234")) = Ok (inputsFor ["abc1234"]))
    by (vm_compute; reflexivity).
  exact (secret_first (allClean "abc1234") (inputsFor ["abc1234"]) R
           ltac:(discriminate) eq_refl).
Defined.


(** After a failed fetch the run reports the failure and sets no output. *)
Lemma setup_failure_ends_run_witness :
  failures (events (run fetchFails)) =
    ["Failed to fetch branch release/1.0: fatal: no such remote ref release/1.0"] /\
  outputs (events (run fetchFails)) = [] /\
  applyAttempts (events (run fetchFails)) = [].
Proof.
  assert (S : res (setup fetchFails) =
              Thrown (ErrorObj "Failed to fetch branch release/1.0: fatal: no such remote ref release/1.0"))
    by (vm_compute; reflexivity).
  destruct (setup_failure_ends_run fetchFails _ S) as (_ & F & O & A & _).
  repeat split; assumption.
Defined.

(** What the conflict scenario reports. *)
Lemma run_report_witness :
  outputs (events (run conflictOnSecond)) =
    [("cherry-pick-status", "conflict");
     ("branch-name", "cherrypick/release-1.0/abc1234-1700000000000")] /\
  failures (events (run conflictOnSecond)) =
    ["Merge conflict while cherry-picking commit def5678"].
Proof.
  assert (S : res (setup conflictOnSecond) =
              Ok (inputsFor ["abc1234"; "def5678"],
                  "cherrypick/release-1.0/abc1234-1700000000000"))
    by (vm_compute; reflexivity).
  assert (R : res (cherryPickCommits (commits (inputsFor ["abc1234"; "def5678"]))
                     (final (setup conflictOnSecond))) =
              Ok {| status := Conflict; successfulCommits := ["abc1234"];
                    failedCommit := Some "def5678";
                    error := Some "Merge conflict while cherry-picking commit def5678" |})
    by (vm_compute; reflexivity).
  exact (run_report conflictOnSecond _ _ _ S R).
Defined.

(** A refused push ends the run after the two outputs. *)
Lemma push_failure_stops_run_witness :
  failures (events (run pushFails)) = ["Failed to push branch: remote: Permission denied"] /\
  noDownstream (events (setup pushFails) ++
                events (cherryPickCommits ["abc1234"] (final (setup pushFails)))) = true.
Proof.
  assert (S : res (setup pushFails) =
              Ok (inputsFor ["abc1234"], "cherrypick/release-1.0/abc1234-1700000000000"))
    by (vm_compute; reflexivity).
  assert (R : res (cherryPickCommits (commits (inputsFor ["abc1234"]))
                     (final (setup pushFails))) =
              Ok {| status := Success; successfulCommits := ["abc1234"];
                    failedCommit := None; error := None |})
    by (vm_compute; reflexivity).
  assert (E : exitCode (fst (execute "git"
                ["push"; "origin"; "cherrypick/release-1.0/abc1234-1700000000000"]
                noOptions
                (final (cherryPickCommits (commits (inputsFor ["abc1234"]))
                          (final (setup pushFails)))))) <> 0%Z)
    by (vm_compute; discriminate).
  rewrite (push_failure_stops_run pushFails _ _ _ S R eq_refl E).
  split; vm_compute; reflexivity.
Defined.

(** Two labels are attached in one call to the created pull request. *)
Lemma review_request_and_labels_witness :
  createPullRequest labelledInputs "topic"
    {| status := Success; successfulCommits := ["abc1234"];
       failedCommit := None; error := None |} (allClean "abc1234") =
  {| res := Ok response;
     events :=
       [EInfo "Creating pull request...";
        EPullsCreate {| pc_owner := Some "acme"; pc_repo := Some "widgets";
                        pc_title := "Backport the widget fix";
                        pc_body := "See the original change.";
                        pc_head := "topic"; pc_base := "release/1.0";
                        pc_draft := false |};
        EInfo "Pull request created: https://github.com/acme/widgets/pull/42";
        EInfo "Adding labels: backport, urgent";
        EAddLabels {| al_owner := Some "acme"; al_repo := Some "widgets";
                      al_issue_number := 42; al_labels := ["backport"; "urgent"] |}];
     final := allClean "abc1234" |}.
Proof.
  exact (review_request_and_labels labelledInputs "topic"
           {| status := Success; successfulCommits := ["abc1234"];
              failedCommit := None; error := None |} (allClean "abc1234")
           "Backport the widget fix" "See the original change."
           eq_refl eq_refl eq_refl).
Defined.

(** One millisecond later the generated name is another one. *)
Lemma names_differ_in_time_witness :
  Date_now (allClean "abc1234") <> Date_now (later (allClean "abc1234")) /\
  res (generateBranchName "release/1.0" ["abc1234"] (allClean "abc1234")) <>
  res (generateBranchName "release/1.0" ["abc1234"] (later (allClean "abc1234"))).
Proof.
  assert (D : Date_now (allClean "abc1234") <> Date_now (later (allClean "abc1234")))
    by (vm_compute; discriminate).
  split; [exact D|].
  exact (names_differ_in_time "release/1.0" ["abc1234"] _ _ ltac:(discriminate) D).
Defined.

(** Without a [repository] input the environment names the repository. *)
Lemma inputs_defaults_witness :
  exists inputs,
    res (readInputs fromEnvironment) = Ok inputs /\
    repository inputs = "acme/widgets" /\
    authorName inputs = "Release Bot" /\
    authorEmail inputs = "github-actions[bot]@users.noreply.github.com" /\
    draft inputs = true /\
    labels inputs = ["backport"; "urgent"].
Proof.
  pose (inputs :=
          {| commits := ["abc1234"]; targetBranch := "release/1.0"; newBranch := "";
             prTitle := ""; prBody := ""; ghToken := "t0ken";
             repository := "acme/widgets"; authorName := "Release Bot";
             authorEmail := "github-actions[bot]@users.noreply.github.com";
             draft := true; labels := ["backport"; "urgent"] |}).
  assert (R : res (readInputs fromEnvironment) = Ok inputs)
    by (vm_compute; reflexivity).
  exists inputs. split; [exact R|].
  destruct (inputs_defaults fromEnvironment inputs R)
    as (given & name & email & flag & tags & G & N & E & F & T & Hr & Hn & He & Hd & Hl).
  vm_compute in G, N, E, F, T.
  injection G as <-. injection N as <-. injection E as <-.
  injection F as <-. injection T as <-.
  rewrite Hr, Hn, He, Hl. repeat split.
Defined.

End MoreScenarios.
